(** * Git commit graph generator (.github/workflows/git_commit_graph.py)

    A shallow embedding of the script and the properties of its three
    stages: the Collector ([get_all_commits_from_date]), the two renderers
    ([create_commit_timeline_graph], [create_commit_network_graph]) and the
    Summarizer ([create_summary_stats]), driven by [main].

    Conventions of the embedding:
    - a Python [dict] is an association list in insertion order whose keys
      are pairwise distinct ([dict_set] keeps the position of a key that is
      assigned again, as Python does);
    - [print], the calls of the history traversal and the files written are
      recorded as a trace of events; [sys.exit] cuts the run short;
    - an aware UTC [datetime] is the number of seconds since the epoch, and
      the text ['%Y-%m-%d'] of a date is represented by the number of the
      calendar day it names (days since 1970-01-01);
    - the third-party libraries are outside the repository: the repository
      object is an input (branch names, remotes, history per revision), the
      parsing of the [--since] text is an input of the run, and writing a
      file is taken to succeed;
    - of a figure, what is kept is what it shows of the collection (rows,
      labels, nodes, edges), not its colours, sizes or layout;
    - a string is a sequence of one-byte characters. *)

From stdpp Require Import base list strings gmap pretty sorting.
From Stdlib Require Import ZArith Lia Ascii.

(** ** Strings *)

(** [s.split(sep)] for a one-character separator: never empty, the pieces
    between the separators, from left to right. *)
Fixpoint split (sep : ascii) (s : string) : list string :=
  match s with
  | EmptyString => [""]
  | String c s' =>
      if decide (c = sep) then "" :: split sep s'
      else match split sep s' with
           | [] => [String c ""]
           | w :: ws => String c w :: ws
           end
  end.

(** [s[:n]] *)
Definition prefix (n : nat) (s : string) : string := String.substring 0 n s.

(** [os.path.join(a, b)] for a relative [b] (POSIX). *)
Definition path_join (a b : string) : string :=
  match String.get (String.length a - 1) a with
  | None => b
  | Some c => if decide (c = "/"%char) then a +:+ b else a +:+ "/" +:+ b
  end.

(** ** Python dictionaries, in insertion order *)

Abbreviation dict V := (list (string * V)).

Section Dict.
Context {V : Type}.

(** [d[k]] when present *)
Fixpoint dict_get (k : string) (d : dict V) : option V :=
  match d with
  | [] => None
  | (k', v) :: d' => if decide (k = k') then Some v else dict_get k d'
  end.

(** [d[k] = v] *)
Fixpoint dict_set (k : string) (v : V) (d : dict V) : dict V :=
  match d with
  | [] => [(k, v)]
  | (k', v') :: d' =>
      if decide (k = k') then (k, v) :: d' else (k', v') :: dict_set k v d'
  end.

Definition dict_keys (d : dict V) : list string := d.*1.
Definition dict_values (d : dict V) : list V := d.*2.
End Dict.

(** ** Data model *)

(** The attributes of a commit that the script reads: [commit.hexsha],
    [commit.author.name], [commit.authored_date] (epoch seconds) and
    [commit.message]. *)
Record Commit := {
  hexsha : string;
  author_name : string;
  authored_date : Z;
  message : string
}.

(** An aware UTC datetime, in seconds since the epoch. *)
Abbreviation datetime := Z.

(** The calendar day (UTC) of an instant, as a day number. *)
Definition day_of (t : Z) : Z := (t `div` 86400)%Z.

(** [since_date.strftime('%Y-%m-%d')]: the date, without the time of day. *)
Definition strftime_Ymd (d : datetime) : Z := day_of d.

Inductive git_result :=
  | GitOk (commits : list Commit)
  | GitCommandError (e : string).

Record Remote := {
  remote_name : string;
  refs : list string          (* [ref.name] of each remote ref *)
}.

(** A repository handle: the names of [repo.branches], [repo.remotes], and
    for a revision name the full history reachable from it, in the order the
    traversal yields it, or the error git reports for it. *)
Record Repo := {
  branches : list string;
  remotes : list Remote;
  rev_list : string → git_result
}.

(** Modelled from the spec: the history traversal of the version-control
    library ([repo.iter_commits(rev, since=...)]), which is not part of this
    repository. Section 4.1: the history of the branch "filtered to commits
    authored on/after the cutoff date (date granularity, not instant
    granularity - commits on the cutoff day are included)", in the order the
    traversal yields them; a failure of the traversal is an error. *)
Definition iter_commits (repo : Repo) (rev : string) (since : Z) : git_result :=
  match rev_list repo rev with
  | GitOk history => GitOk (filter (λ c, (since ≤ day_of (authored_date c))%Z) history)
  | GitCommandError e => GitCommandError e
  end.

Inductive repo_open :=
  | Opened (repo : Repo)
  | InvalidGitRepositoryError.

(** What the run reads from outside: [datetime.strptime(_, '%Y-%m-%d')]
    followed by [replace(tzinfo=utc)] ([None] for [ValueError]), and
    [git.Repo(path)]. *)
Record World := {
  strptime_Ymd : string → option datetime;
  git_Repo : string → repo_open
}.

(** The Branch collection: branch display name to its commits. *)
Abbreviation Collection := (dict (list Commit)).

(** ** What the renderers and the Summarizer produce *)

(** One row of the timeline: its height [i], the label of the scatter
    series, the dates plotted, and the annotation (text, x position). *)
Record TimelineRow := {
  row_y : nat;
  row_label : string;
  row_dates : list Z;
  row_annotation : option (string * Z)
}.

Record Timeline := {
  timeline_rows : list TimelineRow;
  timeline_yticklabels : list string
}.

(** ['branch'] and ['commit'], the values of the [node_type] attribute. *)
Inductive node_kind := branch_kind | commit_kind.

Global Instance node_kind_eq_dec : EqDecision node_kind.
Proof. solve_decision. Defined.

(** The attribute dictionary of a node of the graph; an attribute that was
    never given is [None]. *)
Record NodeAttrs := {
  attr_node_type : option node_kind;
  attr_commit_count : option nat;
  attr_author : option string;
  attr_date : option Z;
  attr_message : option string
}.

(** A [networkx.DiGraph]: the nodes with their attributes in insertion
    order, and the edges, each pair once. *)
Record DiGraph := {
  nodes : dict NodeAttrs;
  edges : list (string * string)
}.

Record BranchStats := {
  commit_count : nat;
  unique_authors : nat;
  authors : list string;
  latest_commit : option Z;
  oldest_commit : option Z
}.

Record Summary := {
  total_branches : nat;
  total_commits : nat;
  branch_stats : dict BranchStats
}.

(** ** Effects *)

Inductive file_content :=
  | TimelinePng (fig : Timeline)
  | NetworkPng (G : DiGraph)
  | SummaryJson (summary : Summary).

Inductive event :=
  | Print (line : string)
  | IterCommits (rev : string) (since : Z)
  | WriteFile (path : string) (content : file_content).

Inductive outcome (A : Type) :=
  | Returned (a : A)
  | SysExit (code : Z).
Arguments Returned {A} a.
Arguments SysExit {A} code.

(** A run: the events it caused, in order, and how it ended. *)
Definition IO (A : Type) : Type := list event * outcome A.

Global Instance IO_ret : MRet IO := λ A a, ([], Returned a).
Global Instance IO_bind : MBind IO := λ A B f m,
  match m.2 with
  | Returned a => (m.1 ++ (f a).1, (f a).2)
  | SysExit code => (m.1, SysExit code)
  end.

Definition emit (e : event) : IO unit := ([e], Returned tt).
Definition print (line : string) : IO unit := emit (Print line).
Definition sys_exit {A} (code : Z) : IO A := ([], SysExit code).

(** [for x in xs: acc = body(acc, x)] *)
Fixpoint for_each {A S} (body : S → A → IO S) (acc : S) (xs : list A) : IO S :=
  match xs with
  | [] => mret acc
  | x :: xs' => acc' ← body acc x; for_each body acc' xs'
  end.

(** The exit status of the process for a run of [main]. *)
Definition exit_code (run : IO unit) : Z :=
  match run.2 with
  | Returned _ => 0
  | SysExit code => code
  end.

Definition written_path (e : event) : option string :=
  match e with
  | WriteFile path _ => Some path
  | _ => None
  end.

Definition files_written {A} (run : IO A) : list string :=
  omap written_path run.1.

Definition is_traversal (e : event) : bool :=
  match e with
  | IterCommits _ _ => true
  | _ => false
  end.

(** ** The Collector *)

(** [ref.name.split('/')[-1]] *)
Definition last_segment (name : string) : string :=
  default "" (last (split "/" name)).

(** [f"{remote.name}/{ref.name.split('/')[-1]}"] *)
Definition remote_branch_name (remote : Remote) (ref : string) : string :=
  remote_name remote +:+ "/" +:+ last_segment ref.

(** The body of the loop over [remote.refs]. *)
Definition add_remote_ref (remote : Remote) (names : list string) (ref : string)
  : list string :=
  let branch_name := remote_branch_name remote ref in
  if decide (branch_name ∈ names) then names else names ++ [branch_name].

(** The list [branches] built by [get_all_commits_from_date]: the local
    branches, then the remote ones. *)
Definition branch_names (repo : Repo) : list string :=
  let locals := foldl (λ names branch, names ++ [branch]) [] (branches repo) in
  foldl (λ names remote, foldl (add_remote_ref remote) names (refs remote))
        locals (remotes repo).

(** The body of the loop over [branches]. *)
Definition collect_branch (repo : Repo) (since : Z)
    (all_commits : Collection) (branch_name : string) : IO Collection :=
  emit (IterCommits branch_name since);;
  match iter_commits repo branch_name since with
  | GitOk commits =>
      match commits with
      | [] => mret all_commits
      | _ :: _ =>
          print ("Branch '" +:+ branch_name +:+ "': "
                 +:+ pretty (length commits) +:+ " commits");;
          mret (dict_set branch_name commits all_commits)
      end
  | GitCommandError e =>
      print ("Warning: Could not access branch '" +:+ branch_name +:+ "': " +:+ e);;
      mret all_commits
  end.

Definition get_all_commits_from_date (w : World) (repo_path : string)
    (since_date : datetime) : IO Collection :=
  match git_Repo w repo_path with
  | InvalidGitRepositoryError =>
      print ("Error: '" +:+ repo_path +:+ "' is not a valid Git repository");;
      sys_exit 1
  | Opened repo =>
      let names := branch_names repo in
      print ("Found " +:+ pretty (length names) +:+ " branches");;
      for_each (collect_branch repo (strftime_Ymd since_date)) [] names
  end.

(** ** The Timeline renderer *)

(** [max(dates)] of a non-empty list [d :: ds] *)
Definition maximum (d : Z) (ds : list Z) : Z := foldl Z.max d ds.

(** The body of the loop over [enumerate(all_commits.items())]. *)
Definition timeline_row (i : nat) (item : string * list Commit) : TimelineRow :=
  let '(branch, commits) := item in
  let dates := authored_date <$> commits in
  {| row_y := i;
     row_label := branch;
     row_dates := dates;
     row_annotation :=
       match dates with
       | [] => None
       | d :: ds => Some (pretty (length commits) +:+ " commits", maximum d ds)
       end |}.

(** [name[:30] + '...' if len(name) > 30 else name] *)
Definition ytick_label (name : string) : string :=
  if decide (30 < String.length name) then prefix 30 name +:+ "..." else name.

Definition timeline_figure (all_commits : Collection) : Timeline :=
  let branch_names := dict_keys all_commits in
  {| timeline_rows := imap timeline_row all_commits;
     timeline_yticklabels := ytick_label <$> branch_names |}.

Definition create_commit_timeline_graph (all_commits : Collection)
    (output_file : string) : IO unit :=
  match all_commits with
  | [] => print "No commits found in the specified time range"
  | _ :: _ =>
      emit (WriteFile output_file (TimelinePng (timeline_figure all_commits)));;
      print ("Timeline graph saved to " +:+ output_file)
  end.

(** ** The Network renderer *)

Definition no_attrs : NodeAttrs :=
  {| attr_node_type := None; attr_commit_count := None; attr_author := None;
     attr_date := None; attr_message := None |}.

(** [old.update(new)] on attribute dictionaries *)
Definition update_attrs (old new : NodeAttrs) : NodeAttrs :=
  let pick {A} (field : NodeAttrs → option A) : option A :=
    match field new with
    | Some x => Some x
    | None => field old
    end in
  {| attr_node_type := pick attr_node_type;
     attr_commit_count := pick attr_commit_count;
     attr_author := pick attr_author;
     attr_date := pick attr_date;
     attr_message := pick attr_message |}.

Definition empty_graph : DiGraph := {| nodes := []; edges := [] |}.

(** [G.add_node(n, **attr)]: a new node gets [attr], a node that is already
    in the graph has its attributes updated with [attr]. *)
Definition add_node (G : DiGraph) (n : string) (attr : NodeAttrs) : DiGraph :=
  {| nodes := dict_set n (update_attrs (default no_attrs (dict_get n (nodes G))) attr)
                       (nodes G);
     edges := edges G |}.

(** [G.add_edge(u, v)]: both ends become nodes if they are not yet. *)
Definition add_edge (G : DiGraph) (u v : string) : DiGraph :=
  let G' := add_node (add_node G u no_attrs) v no_attrs in
  {| nodes := nodes G';
     edges := if decide ((u, v) ∈ edges G) then edges G else edges G ++ [(u, v)] |}.

(** [commit.hexsha[:8]] *)
Definition commit_id (commit : Commit) : string := prefix 8 (hexsha commit).

(** The body of the loop over [commits[:10]]. *)
Definition add_commit (branch : string) (G : DiGraph) (commit : Commit) : DiGraph :=
  let G := add_node G (commit_id commit)
             {| attr_node_type := Some commit_kind;
                attr_commit_count := None;
                attr_author := Some (author_name commit);
                attr_date := Some (authored_date commit);
                attr_message := Some (prefix 50 (message commit)) |} in
  add_edge G branch (commit_id commit).

(** The body of the loop over [all_commits.items()]. *)
Definition add_branch (G : DiGraph) (item : string * list Commit) : DiGraph :=
  let '(branch, commits) := item in
  let G := add_node G branch
             {| attr_node_type := Some branch_kind;
                attr_commit_count := Some (length commits);
                attr_author := None; attr_date := None; attr_message := None |} in
  foldl (add_commit branch) G (take 10 commits).

(** The graph [G] of [create_commit_network_graph]. *)
Definition network_graph (all_commits : Collection) : DiGraph :=
  foldl add_branch empty_graph all_commits.

(** [[n for n in G.nodes() if G.nodes[n].get('node_type') == kind]] *)
Definition nodes_of_type (kind : node_kind) (G : DiGraph) : list string :=
  (filter (λ na, attr_node_type na.2 = Some kind) (nodes G)).*1.

Definition branch_nodes (G : DiGraph) : list string := nodes_of_type branch_kind G.
Definition commit_nodes (G : DiGraph) : list string := nodes_of_type commit_kind G.

Definition create_commit_network_graph (all_commits : Collection)
    (output_file : string) : IO unit :=
  match all_commits with
  | [] => print "No commits found in the specified time range"
  | _ :: _ =>
      emit (WriteFile output_file (NetworkPng (network_graph all_commits)));;
      print ("Network graph saved to " +:+ output_file)
  end.

(** ** The Summarizer *)

(** [list(set(commit.author.name for commit in commits))], in the order the
    set yields its elements. *)
Definition author_list (commits : list Commit) : list string :=
  elements (list_to_set (author_name <$> commits) : gset string).

(** The entry of [branch_stats] for a branch with these commits;
    [commits[0]] and [commits[-1]] are guarded by [if commits else None]. *)
Definition stats_entry (commits : list Commit) : BranchStats :=
  let authors := author_list commits in
  {| commit_count := length commits;
     unique_authors := length authors;
     authors := authors;
     latest_commit := authored_date <$> head commits;
     oldest_commit := authored_date <$> last commits |}.

(** The body of the loop over [all_commits.items()]. *)
Definition add_stats (stats : dict BranchStats) (item : string * list Commit)
  : dict BranchStats :=
  let '(branch, commits) := item in
  match commits with
  | [] => stats
  | _ :: _ => dict_set branch (stats_entry commits) stats
  end.

Definition summary_of (all_commits : Collection) : Summary :=
  {| total_branches := length all_commits;
     total_commits := sum_list (length <$> dict_values all_commits);
     branch_stats := foldl add_stats [] all_commits |}.

Definition create_summary_stats (all_commits : Collection)
    (output_file : string) : IO unit :=
  let summary := summary_of all_commits in
  emit (WriteFile output_file (SummaryJson summary));;
  print ("Summary statistics saved to " +:+ output_file).

(** ** The program *)

Record Args := {
  since : string;
  repo_path : string;
  output_dir : string
}.

Definition main (w : World) (args : Args) : IO unit :=
  match strptime_Ymd w (since args) with
  | None =>
      print "Error: Invalid date format. Use YYYY-MM-DD";;
      sys_exit 1
  | Some since_date =>
      print ("Collecting commits since " +:+ since args
             +:+ " from repository: " +:+ repo_path args);;
      all_commits ← get_all_commits_from_date w (repo_path args) since_date;
      match all_commits with
      | [] => print "No commits found in the specified time range"
      | _ :: _ =>
          let timeline_file := path_join (output_dir args) "commit_timeline.png" in
          let network_file := path_join (output_dir args) "commit_network.png" in
          let summary_file := path_join (output_dir args) "commit_summary.json" in
          create_commit_timeline_graph all_commits timeline_file;;
          create_commit_network_graph all_commits network_file;;
          create_summary_stats all_commits summary_file;;
          print (String "010" "Generated files:");;
          print ("- Timeline graph: " +:+ timeline_file);;
          print ("- Network graph: " +:+ network_file);;
          print ("- Summary stats: " +:+ summary_file)
      end
  end.

(** ** Auxiliary notions used in the statements *)

(** The commits of a branch that qualify for the cutoff: what the traversal
    yields, nothing when it fails. *)
Definition qualifying (repo : Repo) (since : Z) (branch_name : string) : list Commit :=
  match iter_commits repo branch_name since with
  | GitOk commits => commits
  | GitCommandError _ => []
  end.

(** The effect of one round of the collecting loop on [all_commits]. *)
Definition collect_step (repo : Repo) (since : Z)
    (all_commits : Collection) (branch_name : string) : Collection :=
  match qualifying repo since branch_name with
  | [] => all_commits
  | commits => dict_set branch_name commits all_commits
  end.

(** What the summarizing loop contributes for one item of the collection. *)
Definition stats_item (item : string * list Commit) : option (string * BranchStats) :=
  match item.2 with
  | [] => None
  | _ :: _ => Some (item.1, stats_entry item.2)
  end.

(** [G.nodes[n].get('node_type')] *)
Definition node_type_of (G : DiGraph) (n : string) : option node_kind :=
  dict_get n (nodes G) ≫= attr_node_type.

(** The order of a branch's commits in the data model: newest first. *)
Definition newest_first (commits : list Commit) : Prop :=
  Sorted (λ a b, (authored_date b ≤ authored_date a)%Z) commits.

(** The edges that leave a node. *)
Definition out_edges (G : DiGraph) (u : string) : list (string * string) :=
  filter (λ e, e.1 = u) (edges G).

(** The keys of the node dictionary are pairwise distinct. *)
Definition nodes_NoDup (G : DiGraph) : Prop := NoDup (dict_keys (nodes G)).

(** The node keys of the commits within the cap of ten per branch. *)
Definition capped_ids (all_commits : Collection) : list string :=
  all_commits ≫= λ item, commit_id <$> take 10 item.2.

(** The branch has qualifying commits. *)
Definition has_commits (repo : Repo) (since : Z) (branch_name : string) : bool :=
  match qualifying repo since branch_name with
  | [] => false
  | _ :: _ => true
  end.

(** The attributes that [add_node] gives the node of a commit. *)
Definition describes (commit : Commit) (attrs : NodeAttrs) : Prop :=
  attr_author attrs = Some (author_name commit) ∧
  attr_date attrs = Some (authored_date commit) ∧
  attr_message attrs = Some (prefix 50 (message commit)).


(** [G.nodes[n].get(field)] for any attribute *)
Definition attr_of {A} (field : NodeAttrs → option A) (G : DiGraph) (n : string)
  : option A :=
  dict_get n (nodes G) ≫= field.

(** Every node marked as a commit carries the attributes of a commit of [P]
    with that id. *)
Definition commits_described (G : DiGraph) (P : Commit → Prop) : Prop :=
  ∀ k attrs,
    dict_get k (nodes G) = Some attrs →
    attr_node_type attrs = Some commit_kind →
    ∃ c, P c ∧ commit_id c = k ∧ describes c attrs.

(** The pairs that can be edges: a branch and the id of one of its first
    ten commits. *)
Definition capped_pairs (all_commits : Collection) : list (string * string) :=
  all_commits ≫= λ item, (λ c, (item.1, commit_id c)) <$> take 10 item.2.

(** ** A sample repository

    [main] has three commits, two of them on or after 2023-11-01;
    [feature/x] has only an old one; the remote [origin] tracks [main]. The
    cutoff instant is 2023-11-01 12:00 UTC, and [c2] was authored at
    03:00 UTC that day. *)
Module Sample.
Definition c1 : Commit :=
  {| hexsha := "9fceb02d0ae598e95dc970b74767f19372d61af8";
     author_name := "Ada"; authored_date := 1699963200;
     message := "Add the network graph" |}.
Definition c2 : Commit :=
  {| hexsha := "3c4e9cd789d88d8d89c1073707c3585e41b0e614";
     author_name := "Brook"; authored_date := 1698807600;
     message := "Add the timeline" |}.
Definition c3 : Commit :=
  {| hexsha := "e69de29bb2d1d6434b8b29ae775ad8c2e48c5391";
     author_name := "Ada"; authored_date := 1600000000;
     message := "Initial commit" |}.

Definition repo : Repo :=
  {| branches := ["feature/x"; "main"];
     remotes := [ {| remote_name := "origin";
                     refs := ["origin/HEAD"; "origin/main"] |} ];
     rev_list := λ rev,
       if decide (rev = "main") then GitOk [c1; c2; c3]
       else if decide (rev = "feature/x") then GitOk [c3]
       else if decide (rev = "origin/main") then GitOk [c2; c3]
       else GitCommandError "fatal: bad revision" |}.

Definition since_date : datetime := 1698840000%Z.

Definition world : World :=
  {| strptime_Ymd := λ text,
       if decide (text = "2023-11-01") then Some 1698796800%Z
       else if decide (text = "2030-01-01") then Some 1893456000%Z
       else None;
     git_Repo := λ path,
       if decide (path = ".") then Opened repo else InvalidGitRepositoryError |}.

Definition args : Args :=
  {| since := "2023-11-01"; repo_path := "."; output_dir := "out" |}.
Definition late_args : Args :=
  {| since := "2030-01-01"; repo_path := "."; output_dir := "out" |}.
Definition bad_date_args : Args :=
  {| since := "01/11/2023"; repo_path := "."; output_dir := "out" |}.
Definition bad_path_args : Args :=
  {| since := "2023-11-01"; repo_path := "/tmp"; output_dir := "out" |}.

Definition collection : Collection :=
  [("main", [c1; c2]); ("origin/main", [c2])].
End Sample.

(** ** A repository whose remote has a branch with a slash in its name

    [origin] has the branches [main] and [feature/x]; the library names
    their refs [origin/main] and [origin/feature/x]. *)
Module SlashBranch.
Definition origin : Remote :=
  {| remote_name := "origin"; refs := ["origin/main"; "origin/feature/x"] |}.

Definition repo : Repo :=
  {| branches := ["main"];
     remotes := [origin];
     rev_list := λ rev,
       if decide (rev = "main") then GitOk [Sample.c2]
       else if decide (rev = "origin/main") then GitOk [Sample.c2]
       else if decide (rev = "origin/feature/x") then GitOk [Sample.c1; Sample.c2]
       else GitCommandError "fatal: bad revision" |}.

Definition world : World :=
  {| strptime_Ymd := strptime_Ymd Sample.world;
     git_Repo := λ path, Opened repo |}.
End SlashBranch.

(** ** A repository with a branch named like a commit id

    The tip of [dev] has the abbreviated hash [f00dcafe], and there is a
    branch of that very name with another commit. *)
Module Clash.
Definition c_dev : Commit :=
  {| hexsha := "f00dcafe4b825dc642cb6eb9a060e54bf8d69288";
     author_name := "Ada"; authored_date := 1699963200;
     message := "Tune the layout" |}.
Definition c_other : Commit :=
  {| hexsha := "0a1b2c3d5e6f708192a3b4c5d6e7f8091a2b3c4d";
     author_name := "Brook"; authored_date := 1699970000;
     message := "Try another layout" |}.

Definition repo : Repo :=
  {| branches := ["dev"; "f00dcafe"];
     remotes := [];
     rev_list := λ rev,
       if decide (rev = "dev") then GitOk [c_dev]
       else if decide (rev = "f00dcafe") then GitOk [c_other]
       else GitCommandError "fatal: bad revision" |}.

Definition world : World :=
  {| strptime_Ymd := strptime_Ymd Sample.world;
     git_Repo := λ path, Opened repo |}.

Definition collection : Collection :=
  [("dev", [c_dev]); ("f00dcafe", [c_other])].
End Clash.

(** ** The scenario of the specification

    [main] has three commits by two authors, all after the cutoff;
    [feature/x] has one commit, authored the day before the cutoff. *)
Module Scenario.
Definition m1 : Commit :=
  {| hexsha := "5d41402abc4b2a76b9719d911017c592aa11bb22";
     author_name := "A"; authored_date := 1700300000; message := "third" |}.
Definition m2 : Commit :=
  {| hexsha := "7d793037a0760186574b0282f2f435e7cc33dd44";
     author_name := "B"; authored_date := 1700200000; message := "second" |}.
Definition m3 : Commit :=
  {| hexsha := "6f1ed002ab5595859014ebf0951522d9ee55ff66";
     author_name := "A"; authored_date := 1700100000; message := "first" |}.
Definition f1 : Commit :=
  {| hexsha := "b1946ac92492d2347c6235b4d2611184aa77bb88";
     author_name := "A"; authored_date := 1699920000; message := "feature" |}.

Definition repo : Repo :=
  {| branches := ["feature/x"; "main"];
     remotes := [];
     rev_list := λ rev,
       if decide (rev = "main") then GitOk [m1; m2; m3]
       else if decide (rev = "feature/x") then GitOk [f1]
       else GitCommandError "fatal: bad revision" |}.

(** 2023-11-15, the day after [f1]. *)
Definition world : World :=
  {| strptime_Ymd := λ text,
       if decide (text = "2023-11-15") then Some 1700006400%Z else None;
     git_Repo := λ path, Opened repo |}.

Definition args : Args :=
  {| since := "2023-11-15"; repo_path := "."; output_dir := "." |}.
End Scenario.

(** * Properties *)

(** ** Dictionaries *)

Section DictFacts.
Context {V : Type}.
Implicit Types (d : dict V) (k : string) (v : V).

Lemma dict_get_set_eq d k v : dict_get k (dict_set k v d) = Some v.
Proof.
  induction d as [|[k' v'] d IH]; simpl.
  - by rewrite decide_True.
  - destruct (decide (k = k')) as [->|Hne]; simpl.
    + by rewrite decide_True.
    + by rewrite decide_False.
Qed.

Lemma dict_get_set_ne d k k' v :
  k ≠ k' → dict_get k' (dict_set k v d) = dict_get k' d.
Proof.
  intros Hne. induction d as [|[k0 v0] d IH]; simpl.
  - by rewrite decide_False.
  - destruct (decide (k = k0)) as [->|Hne0]; simpl.
    + by rewrite !decide_False.
    + by rewrite IH.
Qed.

Lemma dict_get_set d k k' v :
  dict_get k' (dict_set k v d) = if decide (k = k') then Some v else dict_get k' d.
Proof.
  destruct (decide (k = k')) as [->|Hne].
  - apply dict_get_set_eq.
  - by apply dict_get_set_ne.
Qed.

Lemma dict_get_Some_elem d k v : dict_get k d = Some v → (k, v) ∈ d.
Proof.
  induction d as [|[k' v'] d IH]; simpl; [done|].
  destruct (decide (k = k')) as [->|Hne].
  - intros [= ->]. apply list_elem_of_here.
  - intros H. apply list_elem_of_further. by apply IH.
Qed.

Lemma dict_get_None d k : dict_get k d = None ↔ k ∉ dict_keys d.
Proof.
  unfold dict_keys. induction d as [|[k' v'] d IH]; simpl.
  - split; [intros _; apply not_elem_of_nil | done].
  - rewrite not_elem_of_cons. destruct (decide (k = k')) as [->|Hne].
    + split; [done | intros [? _]; done].
    + rewrite IH. tauto.
Qed.

Lemma elem_dict_get d k v :
  NoDup (dict_keys d) → (k, v) ∈ d → dict_get k d = Some v.
Proof.
  unfold dict_keys. induction d as [|[k' v'] d IH]; simpl.
  - intros _ H. by apply elem_of_nil in H.
  - rewrite NoDup_cons. intros [Hk' Hd] [[= -> ->]|Hin]%elem_of_cons.
    + by rewrite decide_True.
    + rewrite decide_False; [by apply IH|].
      intros ->. apply Hk'. apply list_elem_of_fmap. by exists (k', v).
Qed.

Lemma dict_keys_set d k v :
  dict_keys (dict_set k v d) =
  if decide (k ∈ dict_keys d) then dict_keys d else dict_keys d ++ [k].
Proof.
  unfold dict_keys. induction d as [|[k' v'] d IH]; cbn [dict_set fmap list_fmap fst].
  - rewrite decide_False; [done | apply not_elem_of_nil].
  - destruct (decide (k = k')) as [->|Hne]; cbn [fmap list_fmap fst].
    + rewrite decide_True; [done | apply list_elem_of_here].
    + rewrite IH. destruct (decide (k ∈ d.*1)) as [Hin|Hnin].
      * rewrite decide_True; [done | by apply list_elem_of_further].
      * rewrite decide_False; [done|]. rewrite not_elem_of_cons. done.
Qed.

Lemma dict_set_NoDup d k v :
  NoDup (dict_keys d) → NoDup (dict_keys (dict_set k v d)).
Proof.
  intros Hd. rewrite dict_keys_set. case_decide; [done|].
  apply NoDup_app. split_and!; [done | | apply NoDup_singleton].
  intros x Hx ->%list_elem_of_singleton. done.
Qed.

Lemma dict_set_fresh d k v :
  k ∉ dict_keys d → dict_set k v d = d ++ [(k, v)].
Proof.
  unfold dict_keys. induction d as [|[k' v'] d IH]; simpl; [done|].
  rewrite not_elem_of_cons. intros [Hne Hnin].
  rewrite decide_False by done. by rewrite IH.
Qed.
End DictFacts.

(** ** Runs *)

Lemma for_each_returns {A S} (body : S → A → IO S) (step : S → A → S) acc xs :
  (∀ acc x, (body acc x).2 = Returned (step acc x)) →
  (for_each body acc xs).2 = Returned (foldl step acc xs).
Proof.
  intros Hbody. revert acc. induction xs as [|x xs IH]; intros acc; simpl; [done|].
  unfold mbind, IO_bind. rewrite Hbody. simpl. apply IH.
Qed.

Lemma for_each_events {A S} (body : S → A → IO S) (P : event → Prop) acc xs :
  (∀ acc x, Forall P (body acc x).1) →
  Forall P (for_each body acc xs).1.
Proof.
  intros Hbody. revert acc. induction xs as [|x xs IH]; intros acc; simpl.
  - constructor.
  - unfold mbind, IO_bind. specialize (Hbody acc x).
    destruct (body acc x) as [tr [acc'|code]]; simpl in *; [|done].
    apply Forall_app. split; [done | apply IH].
Qed.

(** ** The Collector *)

Lemma collect_branch_returns repo since acc b :
  (collect_branch repo since acc b).2 = Returned (collect_step repo since acc b).
Proof.
  unfold collect_branch, collect_step, qualifying.
  destruct (iter_commits repo b since) as [[|c cs]|e]; reflexivity.
Qed.

Lemma collect_fold_get repo since names acc b :
  dict_get b (foldl (collect_step repo since) acc names) =
  if decide (b ∈ names ∧ qualifying repo since b ≠ [])
  then Some (qualifying repo since b)
  else dict_get b acc.
Proof.
  revert acc. induction names as [|n names IH]; intros acc; cbn [foldl].
  - rewrite decide_False; [done|]. intros [[]%elem_of_nil _].
  - rewrite IH. destruct (decide (b ∈ names ∧ _)) as [[Hin Hq]|Hnot].
    + rewrite decide_True; [done|]. split; [by apply list_elem_of_further | done].
    + unfold collect_step at 1.
      destruct (qualifying repo since n) as [|c cs] eqn:Hn.
      * rewrite decide_False; [done|].
        rewrite elem_of_cons. intros [[->|?] ?]; [congruence | tauto].
      * rewrite dict_get_set. destruct (decide (n = b)) as [->|Hne].
        -- rewrite decide_True, Hn; [done|].
           split; [apply list_elem_of_here | by rewrite Hn].
        -- rewrite decide_False; [done|].
           rewrite elem_of_cons. intros [[->|?] ?]; [done|tauto].
Qed.

Lemma collect_fold_NoDup repo since names acc :
  NoDup (dict_keys acc) →
  NoDup (dict_keys (foldl (collect_step repo since) acc names)).
Proof.
  revert acc. induction names as [|n names IH]; intros acc Hacc; simpl; [done|].
  apply IH. unfold collect_step.
  destruct (qualifying repo since n); [done | by apply dict_set_NoDup].
Qed.

Lemma get_all_commits_opened w repo_path since_date repo :
  git_Repo w repo_path = Opened repo →
  (get_all_commits_from_date w repo_path since_date).2 =
  Returned (foldl (collect_step repo (strftime_Ymd since_date)) [] (branch_names repo)).
Proof.
  intros Hopen. unfold get_all_commits_from_date. rewrite Hopen.
  unfold mbind, IO_bind. cbn [print emit snd].
  apply for_each_returns. intros. apply collect_branch_returns.
Qed.

Lemma get_all_commits_invalid w repo_path since_date :
  git_Repo w repo_path = InvalidGitRepositoryError →
  get_all_commits_from_date w repo_path since_date =
  ([Print ("Error: '" +:+ repo_path +:+ "' is not a valid Git repository")],
   SysExit 1).
Proof.
  intros Hopen. unfold get_all_commits_from_date. by rewrite Hopen.
Qed.

(** Whatever the Collector returns comes from an opened repository. *)
Lemma get_all_commits_returned w repo_path since_date all_commits :
  (get_all_commits_from_date w repo_path since_date).2 = Returned all_commits →
  ∃ repo, git_Repo w repo_path = Opened repo ∧
    all_commits =
    foldl (collect_step repo (strftime_Ymd since_date)) [] (branch_names repo).
Proof.
  intros Hrun. destruct (git_Repo w repo_path) as [repo|] eqn:Hopen.
  - exists repo. split; [done|].
    rewrite (get_all_commits_opened _ _ _ _ Hopen) in Hrun. by injection Hrun.
  - by rewrite (get_all_commits_invalid _ _ _ Hopen) in Hrun.
Qed.

Lemma collection_get w repo_path since_date all_commits repo branch :
  (get_all_commits_from_date w repo_path since_date).2 = Returned all_commits →
  git_Repo w repo_path = Opened repo →
  dict_get branch all_commits =
  if decide (branch ∈ branch_names repo ∧
             qualifying repo (strftime_Ymd since_date) branch ≠ [])
  then Some (qualifying repo (strftime_Ymd since_date) branch)
  else None.
Proof.
  intros Hrun Hopen.
  rewrite (get_all_commits_opened _ _ _ _ Hopen) in Hrun.
  injection Hrun as <-. by rewrite collect_fold_get.
Qed.

Lemma collection_NoDup w repo_path since_date all_commits :
  (get_all_commits_from_date w repo_path since_date).2 = Returned all_commits →
  NoDup (dict_keys all_commits).
Proof.
  intros (repo & _ & ->)%get_all_commits_returned.
  apply collect_fold_NoDup. constructor.
Qed.

Lemma qualifying_elem repo since branch commit :
  commit ∈ qualifying repo since branch ↔
  ∃ history, rev_list repo branch = GitOk history ∧ commit ∈ history ∧
             (since ≤ day_of (authored_date commit))%Z.
Proof.
  unfold qualifying, iter_commits.
  destruct (rev_list repo branch) as [history|e].
  - rewrite list_elem_of_filter. split.
    + intros [? ?]. by exists history.
    + intros (h & [= <-] & ? & ?). done.
  - split; [by intros ?%elem_of_nil | by intros (h & [=] & _)].
Qed.

(** C1: every commit that the Collector places in the Branch collection,
    for any branch, was authored on a calendar day that is the cutoff's day
    or a later one; the comparison is by day, so that a commit of a listed
    branch authored on the cutoff day itself (or later) is in the
    collection, whatever the time of day of the cutoff. *)
Theorem collected_commits_on_or_after_cutoff w repo_path since_date all_commits :
  (get_all_commits_from_date w repo_path since_date).2 = Returned all_commits →
  (∀ branch commits commit,
     dict_get branch all_commits = Some commits → commit ∈ commits →
     (day_of since_date ≤ day_of (authored_date commit))%Z) ∧
  (∀ repo branch history commit,
     git_Repo w repo_path = Opened repo → branch ∈ branch_names repo →
     rev_list repo branch = GitOk history → commit ∈ history →
     (day_of since_date ≤ day_of (authored_date commit))%Z →
     ∃ commits, dict_get branch all_commits = Some commits ∧ commit ∈ commits).
Proof.
  intros Hrun. split.
  - intros branch commits commit Hget Hin.
    destruct (get_all_commits_returned _ _ _ _ Hrun) as (repo & Hopen & _).
    rewrite (collection_get _ _ _ _ _ branch Hrun Hopen) in Hget.
    case_decide; [|done]. injection Hget as <-.
    apply qualifying_elem in Hin as (history & _ & _ & Hday). exact Hday.
  - intros repo branch history commit Hopen Hbranch Hhist Hin Hday.
    assert (commit ∈ qualifying repo (strftime_Ymd since_date) branch) as Hq.
    { apply qualifying_elem. by exists history. }
    exists (qualifying repo (strftime_Ymd since_date) branch). split; [|done].
    rewrite (collection_get _ _ _ _ _ branch Hrun Hopen).
    rewrite decide_True; [done|]. split; [done|].
    intros Hnil. rewrite Hnil in Hq. by apply elem_of_nil in Hq.
Qed.

Lemma collected_commits_on_or_after_cutoff_witness :
  (∀ branch commits commit,
     dict_get branch Sample.collection = Some commits → commit ∈ commits →
     (day_of Sample.since_date ≤ day_of (authored_date commit))%Z) ∧
  (∀ repo branch history commit,
     git_Repo Sample.world "." = Opened repo → branch ∈ branch_names repo →
     rev_list repo branch = GitOk history → commit ∈ history →
     (day_of Sample.since_date ≤ day_of (authored_date commit))%Z →
     ∃ commits, dict_get branch Sample.collection = Some commits ∧ commit ∈ commits).
Proof.
  apply (collected_commits_on_or_after_cutoff Sample.world "." Sample.since_date).
  vm_compute. reflexivity.
Defined.

(** ** The network graph *)

Section GraphFacts.
Implicit Types (G : DiGraph) (n k u v : string) (attr : NodeAttrs).

Lemma update_attrs_type old new :
  attr_node_type (update_attrs old new) =
  match attr_node_type new with
  | Some kind => Some kind
  | None => attr_node_type old
  end.
Proof. reflexivity. Qed.

Lemma node_type_add_node G n attr k :
  node_type_of (add_node G n attr) k =
  if decide (n = k)
  then match attr_node_type attr with
       | Some kind => Some kind
       | None => node_type_of G k
       end
  else node_type_of G k.
Proof.
  unfold node_type_of, add_node. cbn [nodes]. rewrite dict_get_set.
  destruct (decide (n = k)) as [->|Hne]; [|done].
  cbn [mbind option_bind]. rewrite update_attrs_type.
  destruct (attr_node_type attr); [done|].
  by destruct (dict_get k (nodes G)).
Qed.

Lemma node_type_add_edge G u v k :
  node_type_of (add_edge G u v) k = node_type_of G k.
Proof.
  unfold add_edge.
  change (node_type_of (add_node (add_node G u no_attrs) v no_attrs) k
          = node_type_of G k).
  rewrite !node_type_add_node. cbn [attr_node_type no_attrs].
  by repeat case_decide.
Qed.

Lemma node_type_add_commit G branch commit k :
  node_type_of (add_commit branch G commit) k =
  if decide (commit_id commit = k) then Some commit_kind else node_type_of G k.
Proof.
  unfold add_commit. rewrite node_type_add_edge, node_type_add_node. done.
Qed.

Lemma node_type_add_commits G branch commits k :
  node_type_of (foldl (add_commit branch) G commits) k =
  if decide (k ∈ commit_id <$> commits) then Some commit_kind
  else node_type_of G k.
Proof.
  induction commits as [|c cs IH] using rev_ind.
  - cbn [foldl fmap list_fmap]. rewrite decide_False; [done|].
    apply not_elem_of_nil.
  - rewrite foldl_snoc, node_type_add_commit, IH, fmap_app.
    cbn [fmap list_fmap]. destruct (decide (commit_id c = k)) as [<-|Hne].
    + rewrite decide_True; [done|]. set_solver.
    + apply decide_ext. set_solver.
Qed.

Lemma node_type_add_branch G branch commits k :
  node_type_of (add_branch G (branch, commits)) k =
  if decide (k ∈ commit_id <$> take 10 commits) then Some commit_kind
  else if decide (branch = k) then Some branch_kind
  else node_type_of G k.
Proof.
  unfold add_branch. rewrite node_type_add_commits, node_type_add_node. done.
Qed.

Lemma capped_ids_snoc (items : Collection) branch commits :
  capped_ids (items ++ [(branch, commits)]) =
  capped_ids items ++ (commit_id <$> take 10 commits).
Proof.
  unfold capped_ids. rewrite bind_app. cbn [mbind list_bind snd].
  by rewrite app_nil_r.
Qed.

Lemma network_graph_snoc (items : Collection) item :
  network_graph (items ++ [item]) = add_branch (network_graph items) item.
Proof. unfold network_graph. apply foldl_snoc. Qed.

(** A node marked as a commit is the id of a commit within the cap. *)
Lemma commit_type_capped (all_commits : Collection) k :
  node_type_of (network_graph all_commits) k = Some commit_kind →
  k ∈ capped_ids all_commits.
Proof.
  induction all_commits as [|[b cs] items IH] using rev_ind; [done|].
  rewrite network_graph_snoc, node_type_add_branch, capped_ids_snoc.
  rewrite elem_of_app. repeat case_decide; [auto | done | auto].
Qed.

(** A node marked as a branch is a key of the collection. *)
Lemma branch_type_key (all_commits : Collection) k :
  node_type_of (network_graph all_commits) k = Some branch_kind →
  k ∈ dict_keys all_commits.
Proof.
  unfold dict_keys.
  induction all_commits as [|[b cs] items IH] using rev_ind; [done|].
  rewrite network_graph_snoc, node_type_add_branch, fmap_app.
  rewrite elem_of_app. cbn [fmap list_fmap fst].
  repeat case_decide; [done | set_solver | auto].
Qed.

(** The id of a commit within the cap is marked as a commit, unless a
    branch bears the same name. *)
Lemma capped_commit_type (all_commits : Collection) k :
  k ∈ capped_ids all_commits → k ∉ dict_keys all_commits →
  node_type_of (network_graph all_commits) k = Some commit_kind.
Proof.
  unfold dict_keys.
  induction all_commits as [|[b cs] items IH] using rev_ind.
  - by intros ?%elem_of_nil.
  - rewrite network_graph_snoc, node_type_add_branch, capped_ids_snoc, fmap_app.
    rewrite elem_of_app, not_elem_of_app. cbn [fmap list_fmap fst].
    intros Hin [Hitems Hb]. case_decide; [done|].
    rewrite decide_False by set_solver. apply IH; [tauto | done].
Qed.
End GraphFacts.

Section GraphNodes.
Implicit Types (G : DiGraph) (n k u v : string) (attr : NodeAttrs).

Lemma add_node_NoDup G n attr : nodes_NoDup G → nodes_NoDup (add_node G n attr).
Proof. apply dict_set_NoDup. Qed.

Lemma add_edge_NoDup G u v : nodes_NoDup G → nodes_NoDup (add_edge G u v).
Proof. intros HG. by do 2 apply dict_set_NoDup. Qed.

Lemma add_branch_NoDup G item : nodes_NoDup G → nodes_NoDup (add_branch G item).
Proof.
  destruct item as [b cs]. unfold add_branch. intros HG.
  generalize (take 10 cs). intros l.
  induction l as [|c l IH] using rev_ind.
  - by apply add_node_NoDup.
  - rewrite foldl_snoc. by apply add_edge_NoDup, add_node_NoDup.
Qed.

Lemma network_graph_NoDup (all_commits : Collection) :
  nodes_NoDup (network_graph all_commits).
Proof.
  induction all_commits as [|item items IH] using rev_ind.
  - constructor.
  - rewrite network_graph_snoc. by apply add_branch_NoDup.
Qed.

Lemma elem_of_nodes_of_type G kind n :
  nodes_NoDup G →
  n ∈ nodes_of_type kind G ↔ node_type_of G n = Some kind.
Proof.
  intros HG. unfold nodes_of_type, node_type_of.
  rewrite list_elem_of_fmap. split.
  - intros ([k a] & -> & [Hkind Hin]%list_elem_of_filter). cbn [fst].
    rewrite (elem_dict_get _ _ _ HG Hin). exact Hkind.
  - destruct (dict_get n (nodes G)) as [a|] eqn:Hget; [|done].
    intros Hkind. exists (n, a). split; [done|].
    apply list_elem_of_filter. split; [done | by apply dict_get_Some_elem].
Qed.

Lemma nodes_of_type_NoDup G kind : nodes_NoDup G → NoDup (nodes_of_type kind G).
Proof.
  unfold nodes_NoDup, nodes_of_type, dict_keys.
  induction (nodes G) as [|[k a] l IH]; [constructor|].
  rewrite fmap_cons, NoDup_cons. intros [Hk Hl].
  rewrite filter_cons. case_decide; [|by apply IH].
  rewrite fmap_cons. apply NoDup_cons. split; [|by apply IH].
  intros ([k' a'] & Heq & [_ Hin]%list_elem_of_filter)%list_elem_of_fmap.
  apply Hk. apply list_elem_of_fmap. by exists (k', a').
Qed.

Lemma capped_ids_length (all_commits : Collection) :
  length (capped_ids all_commits) ≤ 10 * length all_commits.
Proof.
  unfold capped_ids. induction all_commits as [|[b cs] items IH]; [done|].
  cbn [mbind list_bind snd length]. rewrite length_app, length_fmap, length_take.
  lia.
Qed.
End GraphNodes.

Section GraphEdges.
Implicit Types (G : DiGraph) (n k u v : string) (e : string * string).

Lemma elem_of_edges_add_edge G u v e :
  e ∈ edges (add_edge G u v) ↔ e = (u, v) ∨ e ∈ edges G.
Proof.
  unfold add_edge. cbn [edges]. case_decide.
  - split; [auto | intros [->|?]; done].
  - rewrite elem_of_app, list_elem_of_singleton. tauto.
Qed.

Lemma add_edge_edges_NoDup G u v :
  NoDup (edges G) → NoDup (edges (add_edge G u v)).
Proof.
  intros HG. unfold add_edge. cbn [edges]. case_decide; [done|].
  apply NoDup_app. split_and!; [done | | apply NoDup_singleton].
  intros x Hx ->%list_elem_of_singleton. done.
Qed.

Lemma elem_of_edges_add_branch G branch commits e :
  e ∈ edges (add_branch G (branch, commits)) ↔
  e ∈ edges G ∨ ∃ c, c ∈ take 10 commits ∧ e = (branch, commit_id c).
Proof.
  unfold add_branch. generalize (take 10 commits). intros l.
  induction l as [|c l IH] using rev_ind.
  - cbn [foldl add_node edges]. split; [auto|].
    intros [?|(c & []%elem_of_nil & _)]. done.
  - rewrite foldl_snoc. unfold add_commit at 1.
    rewrite elem_of_edges_add_edge. cbn [add_node edges]. rewrite IH.
    setoid_rewrite elem_of_app. setoid_rewrite list_elem_of_singleton.
    naive_solver.
Qed.

Lemma add_branch_edges_NoDup G item :
  NoDup (edges G) → NoDup (edges (add_branch G item)).
Proof.
  destruct item as [b cs]. unfold add_branch. intros HG.
  generalize (take 10 cs). intros l.
  induction l as [|c l IH] using rev_ind; [done|].
  rewrite foldl_snoc. by apply add_edge_edges_NoDup.
Qed.

(** The edges of the graph: from each branch to the ids of its first ten
    commits, each pair once. *)
Lemma elem_of_network_edges (all_commits : Collection) e :
  e ∈ edges (network_graph all_commits) ↔
  ∃ branch commits c,
    (branch, commits) ∈ all_commits ∧ c ∈ take 10 commits ∧
    e = (branch, commit_id c).
Proof.
  induction all_commits as [|[b cs] items IH] using rev_ind.
  - split; [by intros ?%elem_of_nil|].
    intros (? & ? & ? & []%elem_of_nil & _).
  - rewrite network_graph_snoc, elem_of_edges_add_branch, IH.
    setoid_rewrite elem_of_app. setoid_rewrite list_elem_of_singleton.
    naive_solver.
Qed.

Lemma network_edges_NoDup (all_commits : Collection) :
  NoDup (edges (network_graph all_commits)).
Proof.
  induction all_commits as [|item items IH] using rev_ind.
  - constructor.
  - rewrite network_graph_snoc. by apply add_branch_edges_NoDup.
Qed.
End GraphEdges.

(** ** The Summarizer and the timeline *)

Lemma add_stats_fold (items : Collection) (acc : dict BranchStats) :
  NoDup (dict_keys acc ++ dict_keys items) →
  foldl add_stats acc items = acc ++ omap stats_item items.
Proof.
  unfold dict_keys. revert acc.
  induction items as [|[b cs] items IH]; intros acc Hnd.
  - by rewrite app_nil_r.
  - rewrite fmap_cons in Hnd. cbn [foldl fst] in *.
    destruct cs as [|c cs].
    + cbn [add_stats omap list_omap stats_item snd]. apply IH.
      apply NoDup_app in Hnd as (Hacc & Hdisj & [_ Hitems]%NoDup_cons).
      apply NoDup_app. split_and!; [done | | done].
      intros k Hk Hin. apply (Hdisj k Hk). by apply list_elem_of_further.
    + cbn [add_stats omap list_omap stats_item snd fst].
      assert (b ∉ dict_keys acc) as Hb.
      { apply NoDup_app in Hnd as (_ & Hdisj & _).
        intros Hin. apply (Hdisj b Hin), list_elem_of_here. }
      rewrite (dict_set_fresh _ _ _ Hb), IH.
      * by rewrite <- app_assoc.
      * rewrite fmap_app. cbn [fmap list_fmap fst]. by rewrite <- app_assoc.
Qed.

Lemma branch_stats_items (all_commits : Collection) :
  NoDup (dict_keys all_commits) →
  branch_stats (summary_of all_commits) = omap stats_item all_commits.
Proof.
  intros Hnd. cbn [summary_of branch_stats]. by rewrite add_stats_fold.
Qed.

(** A branch with statistics has commits in the collection, whatever the
    collection. *)
Lemma add_stats_fold_keys (items : Collection) (acc : dict BranchStats) k :
  k ∈ dict_keys (foldl add_stats acc items) →
  k ∈ dict_keys acc ∨ ∃ commits, (k, commits) ∈ items ∧ commits ≠ [].
Proof.
  revert acc. induction items as [|[b cs] items IH]; intros acc; cbn [foldl].
  - auto.
  - intros [Hacc|(commits & Hin & Hne)]%IH.
    + destruct cs as [|c cs]; cbn [add_stats] in Hacc; [auto|].
      rewrite dict_keys_set in Hacc. case_decide; [auto|].
      apply elem_of_app in Hacc as [?| ->%list_elem_of_singleton]; [auto|].
      right. exists (c :: cs). split; [apply list_elem_of_here | done].
    + right. exists commits. split; [by apply list_elem_of_further | done].
Qed.

Lemma branch_stats_keys (all_commits : Collection) k :
  k ∈ dict_keys (branch_stats (summary_of all_commits)) →
  ∃ commits, (k, commits) ∈ all_commits ∧ commits ≠ [].
Proof.
  intros [[]%elem_of_nil|H]%add_stats_fold_keys. exact H.
Qed.

Lemma timeline_row_labels (all_commits : Collection) :
  row_label <$> timeline_rows (timeline_figure all_commits) = dict_keys all_commits.
Proof.
  cbn [timeline_figure timeline_rows]. unfold dict_keys. rewrite fmap_imap.
  rewrite <- imap_const. apply imap_ext. by intros i [b cs] _.
Qed.

(** C2: a branch name is a key of the Branch collection that the Collector
    returns only if its list of qualifying commits is non-empty (and the
    collection holds exactly that list); a branch without qualifying commits
    is not a key; and a branch that is not a key of the collection has no
    entry in [branch_stats], no row in the timeline and no branch node in
    the network graph. *)
Theorem branches_without_commits_absent w repo_path since_date all_commits :
  (get_all_commits_from_date w repo_path since_date).2 = Returned all_commits →
  (∀ branch commits,
     dict_get branch all_commits = Some commits →
     commits ≠ [] ∧
     ∃ repo, git_Repo w repo_path = Opened repo ∧
             qualifying repo (strftime_Ymd since_date) branch = commits) ∧
  (∀ repo branch,
     git_Repo w repo_path = Opened repo →
     qualifying repo (strftime_Ymd since_date) branch = [] →
     branch ∉ dict_keys all_commits) ∧
  (∀ branch,
     branch ∉ dict_keys all_commits →
     (branch ∉ dict_keys (branch_stats (summary_of all_commits))) ∧
     (branch ∉ row_label <$> timeline_rows (timeline_figure all_commits)) ∧
     (branch ∉ branch_nodes (network_graph all_commits))).
Proof.
  intros Hrun. split_and!.
  - intros branch commits Hget.
    destruct (get_all_commits_returned _ _ _ _ Hrun) as (repo & Hopen & _).
    rewrite (collection_get _ _ _ _ _ branch Hrun Hopen) in Hget.
    case_decide as Hq; [|done]. injection Hget as <-.
    split; [apply Hq | by exists repo].
  - intros repo branch Hopen Hnone. apply dict_get_None.
    rewrite (collection_get _ _ _ _ _ branch Hrun Hopen).
    rewrite decide_False; [done | tauto].
  - intros branch Hkey. split_and!.
    + intros (commits & Hin & _)%branch_stats_keys. apply Hkey.
      apply list_elem_of_fmap. by exists (branch, commits).
    + by rewrite timeline_row_labels.
    + intros Hnode. apply Hkey, branch_type_key.
      by apply (elem_of_nodes_of_type _ _ _ (network_graph_NoDup all_commits)).
Qed.

Lemma branches_without_commits_absent_witness :
  (∀ branch commits,
     dict_get branch Sample.collection = Some commits →
     commits ≠ [] ∧
     ∃ repo, git_Repo Sample.world "." = Opened repo ∧
             qualifying repo (strftime_Ymd Sample.since_date) branch = commits) ∧
  (∀ repo branch,
     git_Repo Sample.world "." = Opened repo →
     qualifying repo (strftime_Ymd Sample.since_date) branch = [] →
     branch ∉ dict_keys Sample.collection) ∧
  (∀ branch,
     branch ∉ dict_keys Sample.collection →
     (branch ∉ dict_keys (branch_stats (summary_of Sample.collection))) ∧
     (branch ∉ row_label <$> timeline_rows (timeline_figure Sample.collection)) ∧
     (branch ∉ branch_nodes (network_graph Sample.collection))).
Proof.
  apply (branches_without_commits_absent Sample.world "." Sample.since_date).
  vm_compute. reflexivity.
Defined.

(** ** Branch names *)

Section BranchNames.
Implicit Types (repo : Repo) (remote : Remote) (names : list string).

Lemma split_length sep s : 0 < length (split sep s).
Proof.
  induction s as [|c s IH]; cbn [split length]; [lia|].
  case_decide; [cbn [length]; lia|].
  destruct (split sep s); cbn [length] in *; lia.
Qed.

Lemma split_no_sep sep s :
  sep ∉ String.list_ascii_of_string s → split sep s = [s].
Proof.
  induction s as [|c s IH]; cbn [split String.list_ascii_of_string]; [done|].
  rewrite not_elem_of_cons. intros [Hne Hs].
  rewrite decide_False by done. by rewrite IH.
Qed.

Lemma split_app_sep_length sep s1 s2 :
  1 < length (split sep (s1 +:+ String sep s2)).
Proof.
  induction s1 as [|c s1 IH]; simpl.
  - rewrite decide_True by done. cbn [length]. pose proof (split_length sep s2). lia.
  - case_decide; [cbn [length]; lia|].
    destruct (split sep _); cbn [length] in *; lia.
Qed.

Lemma last_split_app_sep sep s1 s2 :
  last (split sep (s1 +:+ String sep s2)) = last (split sep s2).
Proof.
  induction s1 as [|c s1 IH]; simpl.
  - rewrite decide_True by done. pose proof (split_length sep s2).
    destruct (split sep s2); cbn [length] in *; [lia | done].
  - pose proof (split_app_sep_length sep s1 s2) as Hlen.
    case_decide.
    + rewrite <- IH. destruct (split sep _); cbn [length] in *; [lia | done].
    + rewrite <- IH. destruct (split sep _) as [|w [|w' ws]]; cbn [length] in *;
        [lia | lia | done].
Qed.

(** For a ref that the library names [<remote>/<branch>], the derived
    name is that name again when the branch name has no slash. *)
Lemma remote_branch_name_plain remote branch :
  "/"%char ∉ String.list_ascii_of_string branch →
  remote_branch_name remote (remote_name remote +:+ "/" +:+ branch) =
  remote_name remote +:+ "/" +:+ branch.
Proof.
  intros Hplain. unfold remote_branch_name, last_segment.
  change ("/" +:+ branch) with (String "/"%char branch).
  by rewrite last_split_app_sep, split_no_sep.
Qed.

Lemma local_names_fold names (locals : list string) :
  foldl (λ names branch, names ++ [branch]) names locals = names ++ locals.
Proof.
  revert names. induction locals as [|b locals IH]; intros names; cbn [foldl].
  - by rewrite app_nil_r.
  - by rewrite IH, <- app_assoc.
Qed.

Lemma add_remote_refs_extend remote names (refs : list string) :
  ∃ rest, foldl (add_remote_ref remote) names refs = names ++ rest.
Proof.
  revert names. induction refs as [|r refs IH]; intros names; cbn [foldl].
  - exists []. by rewrite app_nil_r.
  - unfold add_remote_ref at 2. case_decide; [apply IH|].
    destruct (IH (names ++ [remote_branch_name remote r])) as [rest ->].
    exists (remote_branch_name remote r :: rest). by rewrite <- app_assoc.
Qed.

(** The local branches come first, under their own names. *)
Lemma branch_names_locals_first repo :
  ∃ rest, branch_names repo = branches repo ++ rest.
Proof.
  unfold branch_names. rewrite local_names_fold, app_nil_l.
  generalize (branches repo). induction (remotes repo) as [|rm rms IH];
    intros names; cbn [foldl].
  - exists []. by rewrite app_nil_r.
  - destruct (add_remote_refs_extend rm names (refs rm)) as [rest1 ->].
    destruct (IH (names ++ rest1)) as [rest2 ->].
    exists (rest1 ++ rest2). by rewrite <- app_assoc.
Qed.

Lemma elem_of_add_remote_refs remote names (refs : list string) n :
  n ∈ foldl (add_remote_ref remote) names refs ↔
  n ∈ names ∨ ∃ ref, ref ∈ refs ∧ n = remote_branch_name remote ref.
Proof.
  revert names. induction refs as [|r refs IH]; intros names; cbn [foldl].
  - split; [auto | intros [?|(? & []%elem_of_nil & _)]; done].
  - rewrite IH. unfold add_remote_ref. setoid_rewrite elem_of_cons.
    case_decide; [|rewrite elem_of_app, list_elem_of_singleton]; naive_solver.
Qed.

(** The names of the list: the local branches and the names derived from
    the refs of the remotes. *)
Lemma elem_of_branch_names repo n :
  n ∈ branch_names repo ↔
  n ∈ branches repo ∨
  ∃ remote ref, remote ∈ remotes repo ∧ ref ∈ refs remote ∧
                n = remote_branch_name remote ref.
Proof.
  unfold branch_names. rewrite local_names_fold, app_nil_l.
  generalize (branches repo). induction (remotes repo) as [|rm rms IH];
    intros names; cbn [foldl].
  - split; [auto | intros [?|(? & ? & []%elem_of_nil & _)]; done].
  - rewrite IH, elem_of_add_remote_refs. setoid_rewrite elem_of_cons.
    naive_solver.
Qed.

Lemma add_remote_refs_NoDup remote names (refs : list string) :
  NoDup names → NoDup (foldl (add_remote_ref remote) names refs).
Proof.
  revert names. induction refs as [|r refs IH]; intros names Hnd; cbn [foldl]; [done|].
  apply IH. unfold add_remote_ref. case_decide; [done|].
  apply NoDup_app. split_and!; [done | | apply NoDup_singleton].
  intros x Hx ->%list_elem_of_singleton. done.
Qed.

(** A derived name is appended only when it is not yet in the list: no name
    is listed twice, if no local branch is. *)
Lemma branch_names_NoDup repo :
  NoDup (branches repo) → NoDup (branch_names repo).
Proof.
  unfold branch_names. rewrite local_names_fold, app_nil_l.
  generalize (branches repo). induction (remotes repo) as [|rm rms IH];
    intros names Hnd; cbn [foldl]; [done|].
  by apply IH, add_remote_refs_NoDup.
Qed.
End BranchNames.

(** C3: for the remote ref [origin/feature/x] (branch [feature/x] of the
    remote [origin]) the Collector derives the display name [origin/x], not
    [origin/feature/x]; the history of the ref, which has qualifying commits,
    is then looked up under that other name, the lookup fails, and the branch
    is missing from the collection. The local branch comes first under its
    own name. *)
Theorem remote_branch_with_slash_misnamed :
  remote_branch_name SlashBranch.origin "origin/feature/x" = "origin/x" ∧
  branch_names SlashBranch.repo = ["main"; "origin/main"; "origin/x"] ∧
  qualifying SlashBranch.repo (strftime_Ymd Sample.since_date) "origin/feature/x"
    = [Sample.c1; Sample.c2] ∧
  (get_all_commits_from_date SlashBranch.world "." Sample.since_date).2
    = Returned [("main", [Sample.c2]); ("origin/main", [Sample.c2])].
Proof. vm_compute. done. Qed.

(** ** What the Summarizer writes *)

Lemma summary_written (all_commits : Collection) output_file path summary :
  WriteFile path (SummaryJson summary) ∈ (create_summary_stats all_commits output_file).1 →
  path = output_file ∧ summary = summary_of all_commits.
Proof.
  cbn. rewrite !elem_of_cons.
  intros [[= -> ->]|[[=]|[]%elem_of_nil]]. done.
Qed.

Lemma branch_stats_NoDup (all_commits : Collection) :
  NoDup (dict_keys (branch_stats (summary_of all_commits))).
Proof.
  cbn [summary_of branch_stats].
  assert (NoDup (dict_keys ([] : dict BranchStats))) as Hnil by constructor.
  revert Hnil. generalize ([] : dict BranchStats).
  induction all_commits as [|[b cs] items IH]; intros acc Hacc; cbn [foldl]; [done|].
  apply IH. destruct cs; cbn [add_stats]; [done | by apply dict_set_NoDup].
Qed.

Lemma branch_stats_get (all_commits : Collection) branch commits :
  NoDup (dict_keys all_commits) →
  dict_get branch all_commits = Some commits → commits ≠ [] →
  dict_get branch (branch_stats (summary_of all_commits))
  = Some (stats_entry commits).
Proof.
  intros Hnd Hget Hne. apply elem_dict_get; [apply branch_stats_NoDup|].
  rewrite (branch_stats_items _ Hnd). apply list_elem_of_omap.
  exists (branch, commits). split; [by apply dict_get_Some_elem|].
  unfold stats_item. cbn [fst snd]. by destruct commits.
Qed.

Lemma stats_items_sum (items : Collection) :
  sum_list (commit_count <$> dict_values (omap stats_item items)) =
  sum_list (length <$> dict_values items).
Proof.
  unfold dict_values. induction items as [|[b cs] items IH]; [done|].
  destruct cs as [|c cs]; cbn [omap list_omap stats_item snd fst].
  - rewrite !fmap_cons. exact IH.
  - rewrite !fmap_cons. cbn [snd commit_count stats_entry].
    change (sum_list (?x :: ?l)) with (x + sum_list l). by rewrite IH.
Qed.

(** C4: in the summary that the Summarizer writes, [total_commits] is the
    sum of the [commit_count] fields over the entries of [branch_stats], and
    [total_branches] is the number of branches of the collection. *)
Theorem summary_totals (all_commits : Collection) output_file path summary :
  NoDup (dict_keys all_commits) →
  WriteFile path (SummaryJson summary) ∈ (create_summary_stats all_commits output_file).1 →
  total_commits summary
  = sum_list (commit_count <$> dict_values (branch_stats summary)) ∧
  total_branches summary = length (dict_keys all_commits).
Proof.
  intros Hnd [_ ->]%summary_written. split.
  - rewrite (branch_stats_items _ Hnd), stats_items_sum. reflexivity.
  - unfold dict_keys. by rewrite length_fmap.
Qed.

Lemma summary_totals_witness :
  total_commits (summary_of Sample.collection)
  = sum_list (commit_count <$> dict_values (branch_stats (summary_of Sample.collection))) ∧
  total_branches (summary_of Sample.collection) = length (dict_keys Sample.collection).
Proof.
  apply (summary_totals Sample.collection "commit_summary.json" "commit_summary.json").
  - vm_compute. repeat constructor; set_solver.
  - vm_compute. apply list_elem_of_here.
Defined.

Lemma author_list_distinct (commits : list Commit) :
  author_list commits ≡ₚ remove_dups (author_name <$> commits).
Proof.
  unfold author_list. apply NoDup_Permutation.
  - apply NoDup_elements.
  - apply NoDup_remove_dups.
  - intros a. by rewrite elem_of_elements, elem_of_list_to_set, elem_of_remove_dups.
Qed.

(** C5: for every branch of the collection, the entry that the Summarizer
    writes for it has as [authors] the distinct author names of exactly that
    branch's commits, each once and in some order, and as [unique_authors]
    their number. *)
Theorem unique_authors_per_branch (all_commits : Collection) output_file path
    summary branch commits :
  NoDup (dict_keys all_commits) →
  WriteFile path (SummaryJson summary) ∈ (create_summary_stats all_commits output_file).1 →
  dict_get branch all_commits = Some commits → commits ≠ [] →
  ∃ stats,
    dict_get branch (branch_stats summary) = Some stats ∧
    authors stats ≡ₚ remove_dups (author_name <$> commits) ∧
    NoDup (authors stats) ∧
    (∀ name, name ∈ authors stats ↔ ∃ c, c ∈ commits ∧ author_name c = name) ∧
    unique_authors stats = length (remove_dups (author_name <$> commits)).
Proof.
  intros Hnd [_ ->]%summary_written Hget Hne.
  exists (stats_entry commits). split; [by apply branch_stats_get|].
  cbn [stats_entry authors unique_authors].
  pose proof (author_list_distinct commits) as Hperm. split_and!.
  - exact Hperm.
  - rewrite Hperm. apply NoDup_remove_dups.
  - intros name. rewrite Hperm, elem_of_remove_dups, list_elem_of_fmap.
    naive_solver.
  - by rewrite Hperm.
Qed.

Lemma unique_authors_per_branch_witness :
  ∃ stats,
    dict_get "main" (branch_stats (summary_of Sample.collection)) = Some stats ∧
    authors stats ≡ₚ remove_dups (author_name <$> [Sample.c1; Sample.c2]) ∧
    NoDup (authors stats) ∧
    (∀ name, name ∈ authors stats ↔
             ∃ c, c ∈ [Sample.c1; Sample.c2] ∧ author_name c = name) ∧
    unique_authors stats = length (remove_dups (author_name <$> [Sample.c1; Sample.c2])).
Proof.
  apply (unique_authors_per_branch Sample.collection
           "commit_summary.json" "commit_summary.json").
  - vm_compute. repeat constructor; set_solver.
  - vm_compute. apply list_elem_of_here.
  - vm_compute. reflexivity.
  - discriminate.
Defined.

Lemma newest_first_bounds (commits : list Commit) first oldest c :
  newest_first commits →
  head commits = Some first → last commits = Some oldest → c ∈ commits →
  (authored_date oldest ≤ authored_date c ≤ authored_date first)%Z.
Proof.
  intros Hsorted Hhead Hlast Hc.
  assert (Transitive (λ a b : Commit, (authored_date b ≤ authored_date a)%Z)) as Htrans.
  { intros x y z ??. lia. }
  apply (Sorted_StronglySorted _) in Hsorted. split.
  - apply last_Some in Hlast as [l' ->].
    apply elem_of_app in Hc as [Hc| ->%list_elem_of_singleton]; [|lia].
    eapply (StronglySorted_app_1_elem_of _ _ _ _ _ Hsorted); [done|].
    apply list_elem_of_here.
  - apply head_Some in Hhead as [l' ->].
    apply elem_of_cons in Hc as [->|Hc]; [lia|].
    apply StronglySorted_inv in Hsorted as [_ Hall].
    by apply (proj1 (Forall_forall _ _) Hall).
Qed.

(** C7: in the entry of a branch, [latest_commit] is the authored timestamp
    of the first commit of the branch's list and [oldest_commit] that of the
    last one; when the list is ordered newest first, these are the largest
    and the smallest authored timestamp of the branch's commits. *)
Theorem latest_and_oldest_commit (all_commits : Collection) output_file path
    summary branch commits :
  NoDup (dict_keys all_commits) →
  WriteFile path (SummaryJson summary) ∈ (create_summary_stats all_commits output_file).1 →
  dict_get branch all_commits = Some commits → commits ≠ [] →
  ∃ stats first oldest,
    dict_get branch (branch_stats summary) = Some stats ∧
    head commits = Some first ∧ last commits = Some oldest ∧
    latest_commit stats = Some (authored_date first) ∧
    oldest_commit stats = Some (authored_date oldest) ∧
    (newest_first commits →
     ∀ c, c ∈ commits →
       (authored_date oldest ≤ authored_date c ≤ authored_date first)%Z).
Proof.
  intros Hnd [_ ->]%summary_written Hget Hne.
  destruct (head commits) as [first|] eqn:Hhead; [|by destruct commits].
  destruct (last commits) as [oldest|] eqn:Hlast;
    [|by apply last_None in Hlast].
  exists (stats_entry commits), first, oldest.
  split; [by apply branch_stats_get|].
  cbn [stats_entry latest_commit oldest_commit]. rewrite Hhead, Hlast.
  split_and!; try done.
  intros Hsorted c Hc. by apply (newest_first_bounds commits).
Qed.

Lemma latest_and_oldest_commit_witness :
  ∃ stats first oldest,
    dict_get "main" (branch_stats (summary_of Sample.collection)) = Some stats ∧
    head [Sample.c1; Sample.c2] = Some first ∧
    last [Sample.c1; Sample.c2] = Some oldest ∧
    latest_commit stats = Some (authored_date first) ∧
    oldest_commit stats = Some (authored_date oldest) ∧
    ∀ c, c ∈ [Sample.c1; Sample.c2] →
      (authored_date oldest ≤ authored_date c ≤ authored_date first)%Z.
Proof.
  destruct (latest_and_oldest_commit Sample.collection
              "commit_summary.json" "commit_summary.json"
              (summary_of Sample.collection) "main" [Sample.c1; Sample.c2])
    as (stats & first & oldest & H1 & H2 & H3 & H4 & H5 & H6).
  - vm_compute. repeat constructor; set_solver.
  - vm_compute. apply list_elem_of_here.
  - vm_compute. reflexivity.
  - discriminate.
  - exists stats, first, oldest. split_and!; try assumption.
    apply H6. repeat constructor. vm_compute. discriminate.
Defined.

(** ** What the Network renderer draws *)

Lemma network_written (all_commits : Collection) output_file path G :
  WriteFile path (NetworkPng G) ∈ (create_commit_network_graph all_commits output_file).1 →
  path = output_file ∧ G = network_graph all_commits.
Proof.
  destruct all_commits as [|item items]; cbn; rewrite !elem_of_cons.
  - intros [[=]|[]%elem_of_nil].
  - intros [[= -> ->]|[[=]|[]%elem_of_nil]]. done.
Qed.

Lemma elem_of_capped_ids (all_commits : Collection) n :
  n ∈ capped_ids all_commits ↔
  ∃ branch commits c,
    (branch, commits) ∈ all_commits ∧ c ∈ take 10 commits ∧ n = commit_id c.
Proof.
  unfold capped_ids. rewrite list_elem_of_bind. split.
  - intros ([b cs] & (c & -> & Hc)%list_elem_of_fmap & Hin). by exists b, cs, c.
  - intros (b & cs & c & Hin & Hc & ->). exists (b, cs). split; [|done].
    apply list_elem_of_fmap. by exists c.
Qed.

Lemma out_edges_length (all_commits : Collection) branch :
  NoDup (dict_keys all_commits) →
  length (out_edges (network_graph all_commits) branch) ≤ 10.
Proof.
  intros Hnd. unfold out_edges.
  destruct (dict_get branch all_commits) as [commits|] eqn:Hget.
  - transitivity (length ((λ c, (branch, commit_id c)) <$> take 10 commits)).
    + apply submseteq_length, NoDup_submseteq.
      * apply NoDup_filter, network_edges_NoDup.
      * intros e [He Hin]%list_elem_of_filter.
        apply elem_of_network_edges in Hin as (b & cs & c & Hin & Hc & ->).
        cbn [fst] in He. subst b.
        rewrite (elem_dict_get _ _ _ Hnd Hin) in Hget. injection Hget as ->.
        apply list_elem_of_fmap. by exists c.
    + rewrite length_fmap, length_take. lia.
  - destruct (filter _ _) as [|e l] eqn:Hf; [cbn; lia|]. exfalso.
    assert (e ∈ e :: l) as Hin by apply list_elem_of_here.
    rewrite <- Hf in Hin. apply list_elem_of_filter in Hin as [He Hin].
    apply elem_of_network_edges in Hin as (b & cs & c & Hin & Hc & ->).
    cbn [fst] in He. subst b. apply dict_get_None in Hget. apply Hget.
    apply list_elem_of_fmap. by exists (branch, cs).
Qed.

(** C6: the commit nodes of the graph that the Network renderer draws are
    at most ten times as many as the branches of the collection: every
    commit node is the id of one of the first ten commits of some branch,
    every edge goes from a branch to the id of one of its first ten commits,
    and at most ten edges leave a branch. *)
Theorem commit_nodes_bounded (all_commits : Collection) output_file path G :
  NoDup (dict_keys all_commits) →
  WriteFile path (NetworkPng G) ∈ (create_commit_network_graph all_commits output_file).1 →
  length (commit_nodes G) ≤ 10 * length (dict_keys all_commits) ∧
  (∀ n, n ∈ commit_nodes G →
     ∃ branch commits c,
       dict_get branch all_commits = Some commits ∧ c ∈ take 10 commits ∧
       n = commit_id c) ∧
  (∀ branch n, (branch, n) ∈ edges G →
     ∃ commits c,
       dict_get branch all_commits = Some commits ∧ c ∈ take 10 commits ∧
       n = commit_id c) ∧
  (∀ branch, length (out_edges G branch) ≤ 10).
Proof.
  intros Hnd [_ ->]%network_written.
  pose proof (network_graph_NoDup all_commits) as HG.
  assert (∀ n, n ∈ commit_nodes (network_graph all_commits) →
               n ∈ capped_ids all_commits) as Hsub.
  { intros n Hn. apply commit_type_capped.
    by apply (elem_of_nodes_of_type _ _ _ HG). }
  split_and!.
  - unfold dict_keys. rewrite length_fmap.
    etransitivity; [|apply capped_ids_length].
    apply submseteq_length, NoDup_submseteq; [|exact Hsub].
    by apply nodes_of_type_NoDup.
  - intros n (b & cs & c & Hin & Hc & ->)%Hsub%elem_of_capped_ids.
    exists b, cs, c. split_and!; [by apply elem_dict_get | done | done].
  - intros branch n (b & cs & c & Hin & Hc & [= -> ->])%elem_of_network_edges.
    exists cs, c. split_and!; [by apply elem_dict_get | done | done].
  - intros branch. by apply out_edges_length.
Qed.

Lemma commit_nodes_bounded_witness :
  length (commit_nodes (network_graph Sample.collection))
  ≤ 10 * length (dict_keys Sample.collection) ∧
  (∀ n, n ∈ commit_nodes (network_graph Sample.collection) →
     ∃ branch commits c,
       dict_get branch Sample.collection = Some commits ∧ c ∈ take 10 commits ∧
       n = commit_id c) ∧
  (∀ branch n, (branch, n) ∈ edges (network_graph Sample.collection) →
     ∃ commits c,
       dict_get branch Sample.collection = Some commits ∧ c ∈ take 10 commits ∧
       n = commit_id c) ∧
  (∀ branch, length (out_edges (network_graph Sample.collection) branch) ≤ 10).
Proof.
  apply (commit_nodes_bounded Sample.collection
           "commit_network.png" "commit_network.png").
  - vm_compute. repeat constructor; set_solver.
  - vm_compute. apply list_elem_of_here.
Defined.

(** C10, as stated, fails: the branch [f00dcafe] has the name of the node of
    the commit [f00dcafe...] of [dev]; when its turn comes, the node is
    marked again as a branch, and the graph has one commit node for two
    distinct 8-character prefixes. *)
Lemma commit_nodes_distinct_prefixes_counterexample :
  (get_all_commits_from_date Clash.world "." Sample.since_date).2
    = Returned Clash.collection ∧
  capped_ids Clash.collection = ["f00dcafe"; "0a1b2c3d"] ∧
  commit_nodes (network_graph Clash.collection) = ["0a1b2c3d"] ∧
  length (commit_nodes (network_graph Clash.collection))
    ≠ length (remove_dups (capped_ids Clash.collection)).
Proof. vm_compute. split_and!; done. Qed.

(** C10, amended: the nodes of the commits are keyed by the first 8
    characters of the hash; when no branch of the collection bears the name
    of such a key, the commit nodes are exactly the distinct keys of the
    commits within the cap of ten per branch, each once, so that a commit
    listed by several branches has a single node, and that node has one
    incoming edge from each branch that lists it among its first ten. *)
Theorem commit_nodes_distinct_prefixes (all_commits : Collection) output_file
    path G :
  NoDup (dict_keys all_commits) →
  (∀ n, n ∈ capped_ids all_commits → n ∉ dict_keys all_commits) →
  WriteFile path (NetworkPng G) ∈ (create_commit_network_graph all_commits output_file).1 →
  (∀ c, commit_id c = prefix 8 (hexsha c)) ∧
  commit_nodes G ≡ₚ remove_dups (capped_ids all_commits) ∧
  length (commit_nodes G) = length (remove_dups (capped_ids all_commits)) ∧
  NoDup (edges G) ∧
  (∀ branch commits n,
     dict_get branch all_commits = Some commits →
     (branch, n) ∈ edges G ↔ n ∈ commit_id <$> take 10 commits).
Proof.
  intros Hnd Hclash [_ ->]%network_written.
  pose proof (network_graph_NoDup all_commits) as HG.
  assert (commit_nodes (network_graph all_commits)
          ≡ₚ remove_dups (capped_ids all_commits)) as Hperm.
  { apply NoDup_Permutation.
    - by apply nodes_of_type_NoDup.
    - apply NoDup_remove_dups.
    - intros n. rewrite elem_of_remove_dups.
      unfold commit_nodes. rewrite (elem_of_nodes_of_type _ _ _ HG). split.
      + apply commit_type_capped.
      + intros Hn. apply capped_commit_type; [done | by apply Hclash]. }
  split_and!.
  - done.
  - exact Hperm.
  - by rewrite Hperm.
  - apply network_edges_NoDup.
  - intros branch commits n Hget. rewrite elem_of_network_edges, list_elem_of_fmap.
    split.
    + intros (b & cs & c & Hin & Hc & [= -> ->]).
      rewrite (elem_dict_get _ _ _ Hnd Hin) in Hget. injection Hget as ->.
      by exists c.
    + intros (c & -> & Hc). exists branch, commits, c.
      split_and!; [by apply dict_get_Some_elem | done | done].
Qed.

Lemma commit_nodes_distinct_prefixes_witness :
  (∀ c, commit_id c = prefix 8 (hexsha c)) ∧
  commit_nodes (network_graph Sample.collection)
    ≡ₚ remove_dups (capped_ids Sample.collection) ∧
  length (commit_nodes (network_graph Sample.collection))
    = length (remove_dups (capped_ids Sample.collection)) ∧
  NoDup (edges (network_graph Sample.collection)) ∧
  (∀ branch commits n,
     dict_get branch Sample.collection = Some commits →
     (branch, n) ∈ edges (network_graph Sample.collection)
     ↔ n ∈ commit_id <$> take 10 commits).
Proof.
  apply (commit_nodes_distinct_prefixes Sample.collection
           "commit_network.png" "commit_network.png").
  - vm_compute. repeat constructor; set_solver.
  - intros n Hn Hkey. vm_compute in Hn, Hkey. set_solver.
  - vm_compute. apply list_elem_of_here.
Defined.

(** ** Runs of the program *)

Lemma collect_fold_nothing repo since names acc :
  (∀ branch, branch ∈ names → qualifying repo since branch = []) →
  foldl (collect_step repo since) acc names = acc.
Proof.
  revert acc. induction names as [|n names IH]; intros acc Hnone; cbn [foldl]; [done|].
  unfold collect_step at 2. rewrite (Hnone n) by apply list_elem_of_here.
  apply IH. intros branch Hin. by apply Hnone, list_elem_of_further.
Qed.

Lemma collect_branch_no_files repo since acc b :
  Forall (λ e, written_path e = None) (collect_branch repo since acc b).1.
Proof.
  unfold collect_branch.
  destruct (iter_commits repo b since) as [[|c cs]|e]; cbn; repeat constructor.
Qed.

Lemma omap_written_none (events : list event) :
  Forall (λ e, written_path e = None) events → omap written_path events = [].
Proof.
  induction 1 as [|e events He _ IH]; [done|].
  cbn [omap list_omap]. by rewrite He.
Qed.

(** The Collector writes no file. *)
Lemma get_all_commits_no_files w repo_path since_date :
  files_written (get_all_commits_from_date w repo_path since_date) = [].
Proof.
  unfold files_written. apply omap_written_none.
  unfold get_all_commits_from_date. destruct (git_Repo w repo_path) as [repo|].
  - unfold mbind, IO_bind. cbn [print emit fst snd app].
    constructor; [done|]. apply for_each_events. intros.
    apply collect_branch_no_files.
  - cbn. repeat constructor.
Qed.

Lemma main_nothing_found w args since_date :
  strptime_Ymd w (since args) = Some since_date →
  (get_all_commits_from_date w (repo_path args) since_date).2 = Returned [] →
  main w args =
  (Print ("Collecting commits since " +:+ since args
          +:+ " from repository: " +:+ repo_path args)
     :: (get_all_commits_from_date w (repo_path args) since_date).1
     ++ [Print "No commits found in the specified time range"],
   Returned tt).
Proof.
  intros Hdate Hrun. unfold main. rewrite Hdate.
  unfold mbind, IO_bind. cbn [print emit fst snd app]. by rewrite Hrun.
Qed.

(** C8: when no branch has a qualifying commit, the Branch collection is
    empty, the last thing the program does is to print the message that no
    commits were found, no file is written, and the exit status is 0; the
    two renderers on their own also only print that message for an empty
    collection. *)
Theorem nothing_found_exits_cleanly w args since_date repo :
  strptime_Ymd w (since args) = Some since_date →
  git_Repo w (repo_path args) = Opened repo →
  (∀ branch, branch ∈ branch_names repo →
             qualifying repo (strftime_Ymd since_date) branch = []) →
  (get_all_commits_from_date w (repo_path args) since_date).2 = Returned [] ∧
  last (main w args).1 = Some (Print "No commits found in the specified time range") ∧
  files_written (main w args) = [] ∧
  exit_code (main w args) = 0%Z ∧
  (∀ output_file,
     create_commit_timeline_graph [] output_file
       = ([Print "No commits found in the specified time range"], Returned tt) ∧
     create_commit_network_graph [] output_file
       = ([Print "No commits found in the specified time range"], Returned tt)).
Proof.
  intros Hdate Hopen Hnone.
  assert ((get_all_commits_from_date w (repo_path args) since_date).2 = Returned [])
    as Hrun.
  { rewrite (get_all_commits_opened _ _ _ _ Hopen). f_equal.
    by apply collect_fold_nothing. }
  rewrite (main_nothing_found _ _ _ Hdate Hrun). split_and!.
  - exact Hrun.
  - cbn [fst]. rewrite app_comm_cons. apply last_snoc.
  - unfold files_written. cbn [fst omap list_omap written_path].
    rewrite omap_app. cbn [omap list_omap written_path]. rewrite app_nil_r.
    apply get_all_commits_no_files.
  - reflexivity.
  - intros output_file. split; reflexivity.
Qed.

Lemma nothing_found_exits_cleanly_witness :
  (get_all_commits_from_date Sample.world "." 1893456000%Z).2 = Returned [] ∧
  last (main Sample.world Sample.late_args).1
    = Some (Print "No commits found in the specified time range") ∧
  files_written (main Sample.world Sample.late_args) = [] ∧
  exit_code (main Sample.world Sample.late_args) = 0%Z ∧
  (∀ output_file,
     create_commit_timeline_graph [] output_file
       = ([Print "No commits found in the specified time range"], Returned tt) ∧
     create_commit_network_graph [] output_file
       = ([Print "No commits found in the specified time range"], Returned tt)).
Proof.
  apply (nothing_found_exits_cleanly Sample.world Sample.late_args
           1893456000%Z Sample.repo).
  - reflexivity.
  - reflexivity.
  - intros branch Hin. vm_compute in Hin.
    repeat (apply elem_of_cons in Hin as [->|Hin]; [vm_compute; reflexivity|]).
    by apply elem_of_nil in Hin.
Defined.

Lemma main_invalid_date w args :
  strptime_Ymd w (since args) = None →
  main w args = ([Print "Error: Invalid date format. Use YYYY-MM-DD"], SysExit 1).
Proof. intros Hdate. unfold main. by rewrite Hdate. Qed.

Lemma main_invalid_repo w args since_date :
  strptime_Ymd w (since args) = Some since_date →
  git_Repo w (repo_path args) = InvalidGitRepositoryError →
  main w args =
  ([Print ("Collecting commits since " +:+ since args
           +:+ " from repository: " +:+ repo_path args);
    Print ("Error: '" +:+ repo_path args +:+ "' is not a valid Git repository")],
   SysExit 1).
Proof.
  intros Hdate Hopen. unfold main. rewrite Hdate.
  unfold mbind, IO_bind. cbn [print emit fst snd app].
  by rewrite (get_all_commits_invalid _ _ _ Hopen).
Qed.

(** C9: when the repository path is not a valid repository, or the date
    given for [--since] is not in the expected format, the program ends by
    printing the error message for it and exits with status 1; no history
    was traversed and no file was written. *)
Theorem fatal_errors_exit_1 w args :
  strptime_Ymd w (since args) = None ∨
  git_Repo w (repo_path args) = InvalidGitRepositoryError →
  exit_code (main w args) = 1%Z ∧
  files_written (main w args) = [] ∧
  filter is_traversal (main w args).1 = [] ∧
  (last (main w args).1 = Some (Print "Error: Invalid date format. Use YYYY-MM-DD") ∨
   last (main w args).1
     = Some (Print ("Error: '" +:+ repo_path args +:+ "' is not a valid Git repository"))).
Proof.
  intros Hfatal.
  destruct (strptime_Ymd w (since args)) as [since_date|] eqn:Hdate.
  - destruct Hfatal as [|Hopen]; [done|].
    rewrite (main_invalid_repo _ _ _ Hdate Hopen).
    split_and!; [done | done | done | by right].
  - rewrite (main_invalid_date _ _ Hdate).
    split_and!; [done | done | done | by left].
Qed.

Lemma fatal_errors_exit_1_witness :
  (exit_code (main Sample.world Sample.bad_path_args) = 1%Z ∧
   files_written (main Sample.world Sample.bad_path_args) = [] ∧
   filter is_traversal (main Sample.world Sample.bad_path_args).1 = [] ∧
   (last (main Sample.world Sample.bad_path_args).1
      = Some (Print "Error: Invalid date format. Use YYYY-MM-DD") ∨
    last (main Sample.world Sample.bad_path_args).1
      = Some (Print ("Error: '" +:+ repo_path Sample.bad_path_args
                     +:+ "' is not a valid Git repository")))) ∧
  (exit_code (main Sample.world Sample.bad_date_args) = 1%Z ∧
   files_written (main Sample.world Sample.bad_date_args) = [] ∧
   filter is_traversal (main Sample.world Sample.bad_date_args).1 = [] ∧
   (last (main Sample.world Sample.bad_date_args).1
      = Some (Print "Error: Invalid date format. Use YYYY-MM-DD") ∨
    last (main Sample.world Sample.bad_date_args).1
      = Some (Print ("Error: '" +:+ repo_path Sample.bad_date_args
                     +:+ "' is not a valid Git repository")))).
Proof.
  split.
  - apply (fatal_errors_exit_1 Sample.world Sample.bad_path_args).
    right. reflexivity.
  - apply (fatal_errors_exit_1 Sample.world Sample.bad_date_args).
    left. reflexivity.
Defined.

(** When something was found, the three files are written, in this order,
    with the figures and the summary of the collection, and the exit status
    is 0. *)
Lemma main_generates w args since_date all_commits :
  strptime_Ymd w (since args) = Some since_date →
  (get_all_commits_from_date w (repo_path args) since_date).2 = Returned all_commits →
  all_commits ≠ [] →
  exit_code (main w args) = 0%Z ∧
  filter (λ e, is_Some (written_path e)) (main w args).1 =
  [ WriteFile (path_join (output_dir args) "commit_timeline.png")
              (TimelinePng (timeline_figure all_commits));
    WriteFile (path_join (output_dir args) "commit_network.png")
              (NetworkPng (network_graph all_commits));
    WriteFile (path_join (output_dir args) "commit_summary.json")
              (SummaryJson (summary_of all_commits)) ].
Proof.
  intros Hdate Hrun Hne. unfold main. rewrite Hdate.
  pose proof (get_all_commits_no_files w (repo_path args) since_date) as Hfiles.
  unfold files_written in Hfiles.
  destruct (get_all_commits_from_date w (repo_path args) since_date)
    as [events out]. cbn [fst snd] in *. subst out.
  destruct all_commits as [|item items]; [done|].
  unfold mbind, IO_bind. cbn [print emit fst snd app]. split; [done|].
  rewrite filter_cons_False by (cbn; by intros []).
  rewrite filter_app.
  replace (filter (λ e, is_Some (written_path e)) events) with ([] : list event).
  - reflexivity.
  - clear -Hfiles. induction events as [|e events IH]; [done|].
    cbn [omap list_omap] in Hfiles.
    destruct (written_path e) eqn:He; [done|].
    rewrite filter_cons_False; [by apply IH|]. rewrite He. by intros [].
Qed.

(** The scenario of the specification: the collection has only [main], with
    its three commits; the summary counts one branch, three commits and two
    authors of [main]. *)
Example scenario_two_branches :
  (get_all_commits_from_date Scenario.world "." 1700006400%Z).2
    = Returned [("main", [Scenario.m1; Scenario.m2; Scenario.m3])] ∧
  ∃ fig G summary stats,
    filter (λ e, is_Some (written_path e)) (main Scenario.world Scenario.args).1
      = [ WriteFile "./commit_timeline.png" (TimelinePng fig);
          WriteFile "./commit_network.png" (NetworkPng G);
          WriteFile "./commit_summary.json" (SummaryJson summary) ] ∧
    total_branches summary = 1 ∧ total_commits summary = 3 ∧
    branch_stats summary = [("main", stats)] ∧ unique_authors stats = 2.
Proof.
  split; [vm_compute; reflexivity|].
  destruct (main_generates Scenario.world Scenario.args 1700006400%Z
              [("main", [Scenario.m1; Scenario.m2; Scenario.m3])])
    as [_ ->]; [reflexivity | vm_compute; reflexivity | discriminate |].
  do 4 eexists. split; [reflexivity|]. vm_compute. done.
Qed.

(** * Further properties of the script *)

(** ** The trace of the Collector *)

Lemma for_each_filter {A S} (body : S → A → IO S) (step : S → A → S)
    (P : event → Prop) `{∀ e, Decision (P e)} (g : A → list event) acc xs :
  (∀ acc x, (body acc x).2 = Returned (step acc x)) →
  (∀ acc x, filter P (body acc x).1 = g x) →
  filter P (for_each body acc xs).1 = xs ≫= g.
Proof.
  intros Hret Hfilter. revert acc.
  induction xs as [|x xs IH]; intros acc; cbn [for_each]; [done|].
  unfold mbind at 1, IO_bind. rewrite Hret. cbn [fst].
  rewrite filter_app, Hfilter, IH. done.
Qed.

Lemma for_each_elem {A S} (body : S → A → IO S) (step : S → A → S) e acc x xs :
  (∀ acc x, (body acc x).2 = Returned (step acc x)) →
  x ∈ xs → (∀ acc, e ∈ (body acc x).1) →
  e ∈ (for_each body acc xs).1.
Proof.
  intros Hret Hin He. revert acc.
  induction xs as [|y xs IH]; intros acc; [by apply elem_of_nil in Hin|].
  cbn [for_each]. unfold mbind, IO_bind. rewrite Hret. cbn [fst].
  apply elem_of_app. apply elem_of_cons in Hin as [<-|Hin]; [left; apply He|].
  right. by apply IH.
Qed.

Lemma collect_step_has_commits repo since (acc : Collection) n :
  collect_step repo since acc n =
  if has_commits repo since n
  then dict_set n (qualifying repo since n) acc
  else acc.
Proof.
  unfold collect_step, has_commits. by destruct (qualifying repo since n).
Qed.

Lemma collect_fold_keys repo since names (acc : Collection) :
  NoDup names → (∀ k, k ∈ dict_keys acc → k ∉ names) →
  dict_keys (foldl (collect_step repo since) acc names) =
  dict_keys acc ++ filter (λ b, has_commits repo since b) names.
Proof.
  revert acc. induction names as [|n names IH]; intros acc Hnd Hdisj; cbn [foldl].
  - by rewrite app_nil_r.
  - apply NoDup_cons in Hnd as [Hn Hnd].
    rewrite filter_cons, collect_step_has_commits.
    destruct (has_commits repo since n).
    + rewrite decide_True by done.
      assert (n ∉ dict_keys acc) as Hfresh.
      { intros Hin. apply (Hdisj n Hin), list_elem_of_here. }
      rewrite (dict_set_fresh _ _ _ Hfresh), IH; [| done |].
      * unfold dict_keys. rewrite fmap_app. cbn [fmap list_fmap fst].
        by rewrite <- app_assoc.
      * unfold dict_keys. rewrite fmap_app. cbn [fmap list_fmap fst].
        intros k [Hk| ->%list_elem_of_singleton]%elem_of_app Hin; [|done].
        apply (Hdisj k Hk). by apply list_elem_of_further.
    + rewrite decide_False by (cbn; tauto). apply IH; [done|].
      intros k Hk Hin. apply (Hdisj k Hk). by apply list_elem_of_further.
Qed.

(** X1: when the local branch names are pairwise distinct, the keys of the
    Branch collection are the listed branches that have qualifying commits,
    in the order of the branch list: the local ones first, then the remote
    ones. *)
Theorem collection_keys_in_branch_order w repo_path since_date repo all_commits :
  git_Repo w repo_path = Opened repo →
  (get_all_commits_from_date w repo_path since_date).2 = Returned all_commits →
  NoDup (branches repo) →
  dict_keys all_commits =
  filter (λ b, has_commits repo (strftime_Ymd since_date) b) (branch_names repo).
Proof.
  intros Hopen Hrun Hnd.
  rewrite (get_all_commits_opened _ _ _ _ Hopen) in Hrun. injection Hrun as <-.
  rewrite collect_fold_keys; [done | by apply branch_names_NoDup |].
  by intros k []%elem_of_nil.
Qed.

Lemma collection_keys_in_branch_order_witness :
  dict_keys Sample.collection =
  filter (λ b, has_commits Sample.repo (strftime_Ymd Sample.since_date) b)
         (branch_names Sample.repo).
Proof.
  apply (collection_keys_in_branch_order Sample.world "." Sample.since_date).
  - reflexivity.
  - vm_compute. reflexivity.
  - vm_compute. repeat constructor; set_solver.
Defined.

(** X2: a branch whose history traversal fails does not stop the run: the
    Collector prints the warning that names the branch and the error,
    carries on, and returns a collection without that branch. *)
Theorem failed_branch_warned_and_skipped w repo_path since_date repo branch e :
  git_Repo w repo_path = Opened repo →
  branch ∈ branch_names repo →
  iter_commits repo branch (strftime_Ymd since_date) = GitCommandError e →
  Print ("Warning: Could not access branch '" +:+ branch +:+ "': " +:+ e)
    ∈ (get_all_commits_from_date w repo_path since_date).1 ∧
  ∃ all_commits,
    (get_all_commits_from_date w repo_path since_date).2 = Returned all_commits ∧
    dict_get branch all_commits = None.
Proof.
  intros Hopen Hin Hfail. split.
  - unfold get_all_commits_from_date. rewrite Hopen.
    unfold mbind at 1, IO_bind. cbn [print emit fst snd app].
    apply list_elem_of_further.
    eapply for_each_elem; [apply collect_branch_returns | exact Hin |].
    intros acc. unfold collect_branch. rewrite Hfail. cbn.
    apply list_elem_of_further, list_elem_of_here.
  - eexists. split; [by apply get_all_commits_opened|].
    rewrite collect_fold_get, decide_False; [done|].
    unfold qualifying. rewrite Hfail. tauto.
Qed.

Lemma failed_branch_warned_and_skipped_witness :
  Print ("Warning: Could not access branch '" +:+ "origin/HEAD" +:+ "': "
         +:+ "fatal: bad revision")
    ∈ (get_all_commits_from_date Sample.world "." Sample.since_date).1 ∧
  ∃ all_commits,
    (get_all_commits_from_date Sample.world "." Sample.since_date).2
      = Returned all_commits ∧
    dict_get "origin/HEAD" all_commits = None.
Proof.
  apply (failed_branch_warned_and_skipped Sample.world "." Sample.since_date
           Sample.repo).
  - reflexivity.
  - vm_compute. set_solver.
  - vm_compute. reflexivity.
Defined.

(** X3: once the repository is open, the Collector first prints how many
    branches it found and then traverses the history of every listed branch
    exactly once, in the order of the list, each time with the day of the
    cutoff. *)
Theorem every_branch_traversed_once w repo_path since_date repo :
  git_Repo w repo_path = Opened repo →
  head (get_all_commits_from_date w repo_path since_date).1
    = Some (Print ("Found " +:+ pretty (length (branch_names repo)) +:+ " branches")) ∧
  filter is_traversal (get_all_commits_from_date w repo_path since_date).1
    = (λ b, IterCommits b (strftime_Ymd since_date)) <$> branch_names repo.
Proof.
  intros Hopen. unfold get_all_commits_from_date. rewrite Hopen.
  unfold mbind, IO_bind. cbn [print emit fst snd app]. split; [done|].
  rewrite filter_cons_False by (cbn; tauto).
  rewrite (for_each_filter _ (collect_step repo (strftime_Ymd since_date)) _
             (λ b, [IterCommits b (strftime_Ymd since_date)])).
  - generalize (branch_names repo). intros l.
    induction l as [|b l IH]; [done|]. cbn [mbind list_bind app fmap list_fmap].
    by rewrite <- IH.
  - apply collect_branch_returns.
  - intros acc b. unfold collect_branch.
    destruct (iter_commits repo b _) as [[|c cs]|e]; cbn;
      rewrite ?filter_cons, ?filter_nil; by cbn.
Qed.

Lemma every_branch_traversed_once_witness :
  head (get_all_commits_from_date Sample.world "." Sample.since_date).1
    = Some (Print ("Found " +:+ pretty (length (branch_names Sample.repo))
                   +:+ " branches")) ∧
  filter is_traversal (get_all_commits_from_date Sample.world "." Sample.since_date).1
    = (λ b, IterCommits b (strftime_Ymd Sample.since_date))
        <$> branch_names Sample.repo.
Proof.
  apply (every_branch_traversed_once Sample.world "." Sample.since_date Sample.repo).
  reflexivity.
Defined.

(** X4: for every branch that enters the collection, the Collector prints
    one line with the branch's name and the number of commits it stored for
    it. *)
Theorem collected_branch_reported w repo_path since_date all_commits branch commits :
  (get_all_commits_from_date w repo_path since_date).2 = Returned all_commits →
  dict_get branch all_commits = Some commits →
  Print ("Branch '" +:+ branch +:+ "': " +:+ pretty (length commits) +:+ " commits")
    ∈ (get_all_commits_from_date w repo_path since_date).1.
Proof.
  intros Hrun Hget.
  destruct (get_all_commits_returned _ _ _ _ Hrun) as (repo & Hopen & _).
  rewrite (collection_get _ _ _ _ _ branch Hrun Hopen) in Hget.
  case_decide as Hq; [|done]. destruct Hq as [Hin Hne]. injection Hget as <-.
  unfold get_all_commits_from_date. rewrite Hopen.
  unfold mbind at 1, IO_bind. cbn [print emit fst snd app].
  apply list_elem_of_further.
  eapply for_each_elem; [apply collect_branch_returns | exact Hin |].
  intros acc. unfold collect_branch. unfold qualifying in *.
  destruct (iter_commits repo branch _) as [[|c cs]|e]; [done | | done].
  cbn. apply list_elem_of_further, list_elem_of_here.
Qed.

Lemma collected_branch_reported_witness :
  Print ("Branch '" +:+ "main" +:+ "': "
         +:+ pretty (length [Sample.c1; Sample.c2]) +:+ " commits")
    ∈ (get_all_commits_from_date Sample.world "." Sample.since_date).1.
Proof.
  apply (collected_branch_reported Sample.world "." Sample.since_date
           Sample.collection).
  - vm_compute. reflexivity.
  - vm_compute. reflexivity.
Defined.

(** ** The list of branches *)

Lemma split_pieces_no_sep sep s :
  Forall (λ w, sep ∉ String.list_ascii_of_string w) (split sep s).
Proof.
  induction s as [|c s IH]; cbn [split].
  - repeat constructor. apply not_elem_of_nil.
  - case_decide as Hc.
    + constructor; [apply not_elem_of_nil | done].
    + destruct (split sep s) as [|w ws].
      * repeat constructor. cbn. rewrite not_elem_of_cons.
        split; [congruence | apply not_elem_of_nil].
      * apply Forall_cons in IH as [Hw Hws]. constructor; [|done].
        cbn. rewrite not_elem_of_cons. split; [congruence | done].
Qed.

Lemma last_segment_no_slash name :
  "/"%char ∉ String.list_ascii_of_string (last_segment name).
Proof.
  unfold last_segment. pose proof (split_pieces_no_sep "/" name) as Hall.
  destruct (last (split "/" name)) as [w|] eqn:Hlast; [|apply not_elem_of_nil].
  apply last_Some_elem_of in Hlast.
  by apply (proj1 (Forall_forall _ _) Hall).
Qed.

Lemma string_app_inj (a x y : string) : a +:+ x = a +:+ y → x = y.
Proof. induction a as [|c a IH]; cbn; [done|]. intros [= H]. by apply IH. Qed.

(** X5: the display name of a remote ref is the remote's name, a slash and
    a piece without a slash; for a ref that the library names
    [<remote>/<branch>] it is the name of the ref exactly when the branch
    name has no slash. *)
Theorem remote_display_name_is_ref_name_iff remote :
  (∀ ref, ∃ piece,
     remote_branch_name remote ref = remote_name remote +:+ "/" +:+ piece ∧
     "/"%char ∉ String.list_ascii_of_string piece) ∧
  (∀ branch,
     remote_branch_name remote (remote_name remote +:+ "/" +:+ branch)
       = remote_name remote +:+ "/" +:+ branch
     ↔ "/"%char ∉ String.list_ascii_of_string branch).
Proof.
  split.
  - intros ref. exists (last_segment ref). split; [done|].
    apply last_segment_no_slash.
  - intros branch. split; [|apply remote_branch_name_plain].
    unfold remote_branch_name. intros Heq.
    apply string_app_inj, string_app_inj in Heq. rewrite <- Heq.
    apply last_segment_no_slash.
Qed.

Lemma add_remote_refs_rest remote names (refs : list string) :
  ∃ rest, foldl (add_remote_ref remote) names refs = names ++ rest ∧
          NoDup rest ∧ (∀ n, n ∈ rest → n ∉ names).
Proof.
  revert names. induction refs as [|r refs IH]; intros names; cbn [foldl].
  - exists []. rewrite app_nil_r. split_and!; [done | constructor |].
    by intros n ?%elem_of_nil.
  - unfold add_remote_ref at 2. case_decide as Hin; [apply IH|].
    destruct (IH (names ++ [remote_branch_name remote r]))
      as (rest & -> & Hnd & Hdisj).
    exists (remote_branch_name remote r :: rest).
    rewrite <- app_assoc. split_and!; [done | |].
    + apply NoDup_cons. split; [|done]. intros Hr. apply (Hdisj _ Hr).
      apply elem_of_app. right. apply list_elem_of_here.
    + intros n [->|Hn]%elem_of_cons; [done|]. intros Hnames.
      apply (Hdisj n Hn). apply elem_of_app. by left.
Qed.

Lemma remotes_rest (remotes : list Remote) names :
  ∃ rest,
    foldl (λ names remote, foldl (add_remote_ref remote) names (refs remote))
          names remotes = names ++ rest ∧
    NoDup rest ∧ (∀ n, n ∈ rest → n ∉ names).
Proof.
  revert names. induction remotes as [|rm rms IH]; intros names; cbn [foldl].
  - exists []. rewrite app_nil_r. split_and!; [done | constructor |].
    by intros n ?%elem_of_nil.
  - destruct (add_remote_refs_rest rm names (refs rm)) as (rest1 & -> & Hnd1 & Hd1).
    destruct (IH (names ++ rest1)) as (rest2 & -> & Hnd2 & Hd2).
    exists (rest1 ++ rest2). rewrite <- app_assoc. split_and!; [done | |].
    + apply NoDup_app. split_and!; [done | | done].
      intros n Hn1 Hn2. apply (Hd2 n Hn2). apply elem_of_app. by right.
    + intros n [Hn|Hn]%elem_of_app; [by apply Hd1|].
      intros Hnames. apply (Hd2 n Hn). apply elem_of_app. by left.
Qed.

(** X6: the list of branches is the local branches under their own names,
    in their order, followed by display names of remote refs; each display
    name of a remote ref is in the list, the appended ones are pairwise
    distinct, and none of them is the name of a local branch: a remote ref
    whose display name is already in the list is passed over. *)
Theorem branch_list_contents repo :
  ∃ rest,
    branch_names repo = branches repo ++ rest ∧
    NoDup rest ∧
    (∀ n, n ∈ rest → n ∉ branches repo) ∧
    (∀ n, n ∈ rest →
       ∃ remote ref, remote ∈ remotes repo ∧ ref ∈ refs remote ∧
                     n = remote_branch_name remote ref) ∧
    (∀ remote ref, remote ∈ remotes repo → ref ∈ refs remote →
       remote_branch_name remote ref ∈ branches repo ++ rest).
Proof.
  pose proof (elem_of_branch_names repo) as Helem. revert Helem.
  unfold branch_names. rewrite local_names_fold, app_nil_l.
  destruct (remotes_rest (remotes repo) (branches repo)) as (rest & -> & Hnd & Hdisj).
  intros Helem. exists rest. split_and!; [done | done | done | |].
  - intros n Hn. destruct (proj1 (Helem n)) as [Hlocal|Hremote].
    + apply elem_of_app. by right.
    + by apply Hdisj in Hlocal.
    + exact Hremote.
  - intros remote ref Hremote Href. apply Helem. right. by exists remote, ref.
Qed.

(** ** The timeline *)

Lemma maximum_upper d ds :
  (d ≤ maximum d ds)%Z ∧ ∀ x, x ∈ ds → (x ≤ maximum d ds)%Z.
Proof.
  unfold maximum. revert d. induction ds as [|y ds IH]; intros d; cbn [foldl].
  - split; [lia | by intros x ?%elem_of_nil].
  - destruct (IH (Z.max d y)) as [Hd Hds]. split; [lia|].
    intros x [->|Hx]%elem_of_cons; [lia | by apply Hds].
Qed.

Lemma maximum_elem d ds : maximum d ds ∈ d :: ds.
Proof.
  unfold maximum. revert d. induction ds as [|y ds IH]; intros d; cbn [foldl].
  - apply list_elem_of_here.
  - specialize (IH (Z.max d y)). apply elem_of_cons in IH as [Heq|Hin].
    + rewrite Heq. destruct (Z.max_spec d y) as [[_ ->]|[_ ->]];
        [apply list_elem_of_further|]; apply list_elem_of_here.
    + by do 2 apply list_elem_of_further.
Qed.

(** X7: the timeline has one row per branch of the collection, in the order
    of the collection; the row of the i-th branch is at height i, carries
    the branch's name, and has one marker per commit at its authored date;
    a branch with commits is annotated with their number, at the latest of
    its authored dates, whatever the order of its commits. *)
Theorem timeline_rows_follow_collection (all_commits : Collection) i branch commits :
  all_commits !! i = Some (branch, commits) →
  length (timeline_rows (timeline_figure all_commits)) = length all_commits ∧
  ∃ row,
    timeline_rows (timeline_figure all_commits) !! i = Some row ∧
    row_y row = i ∧ row_label row = branch ∧
    row_dates row = authored_date <$> commits ∧
    (commits = [] → row_annotation row = None) ∧
    (commits ≠ [] →
     ∃ newest,
       row_annotation row = Some (pretty (length commits) +:+ " commits", newest) ∧
       newest ∈ row_dates row ∧
       ∀ d, d ∈ row_dates row → (d ≤ newest)%Z).
Proof.
  intros Hi. cbn [timeline_figure timeline_rows]. split; [apply length_imap|].
  exists (timeline_row i (branch, commits)).
  rewrite list_lookup_imap, Hi. split; [done|].
  cbn [timeline_row row_y row_label row_dates row_annotation].
  split_and!; try done.
  - by intros ->.
  - intros Hne. destruct commits as [|c cs]; [done|]. cbn [fmap list_fmap].
    eexists. split; [done|]. split; [apply maximum_elem|].
    pose proof (maximum_upper (authored_date c) (authored_date <$> cs)) as [Hd Hds].
    intros d [->|Hin]%elem_of_cons; [done | by apply Hds].
Qed.

Lemma timeline_rows_follow_collection_witness :
  length (timeline_rows (timeline_figure Sample.collection))
    = length Sample.collection ∧
  ∃ row,
    timeline_rows (timeline_figure Sample.collection) !! 1 = Some row ∧
    row_y row = 1 ∧ row_label row = "origin/main" ∧
    row_dates row = authored_date <$> [Sample.c2] ∧
    ([Sample.c2] = [] → row_annotation row = None) ∧
    ([Sample.c2] ≠ [] →
     ∃ newest,
       row_annotation row
         = Some (pretty (length [Sample.c2]) +:+ " commits", newest) ∧
       newest ∈ row_dates row ∧
       ∀ d, d ∈ row_dates row → (d ≤ newest)%Z).
Proof.
  apply (timeline_rows_follow_collection Sample.collection 1 "origin/main").
  reflexivity.
Defined.

Lemma string_length_app (a b : string) :
  String.length (a +:+ b) = String.length a + String.length b.
Proof. induction a as [|c a IH]; simpl; [done | by rewrite IH]. Qed.

Lemma prefix_length n (s : string) :
  String.length (prefix n s) = n `min` String.length s.
Proof.
  unfold prefix. revert s. induction n as [|n IH]; intros [|c s]; simpl; try done.
  by rewrite IH.
Qed.

Lemma prefix_app n (s : string) : ∃ rest, s = prefix n s +:+ rest.
Proof.
  unfold prefix. revert s. induction n as [|n IH]; intros [|c s]; simpl.
  - by exists "".
  - by exists (String c s).
  - by exists "".
  - destruct (IH s) as [rest Hrest]. exists rest.
    change (String c s = String c (String.substring 0 n s +:+ rest)).
    by rewrite <- Hrest.
Qed.

(** X8: the label of a branch on the vertical axis is never longer than 33
    characters: a name of at most 30 characters is its own label, a longer
    one is cut down to its first 30 characters followed by three dots. *)
Theorem ytick_label_bounded name :
  String.length (ytick_label name) ≤ 33 ∧
  (String.length name ≤ 30 → ytick_label name = name) ∧
  (30 < String.length name →
   String.length (ytick_label name) = 33 ∧
   ∃ first rest,
     String.length first = 30 ∧ name = first +:+ rest ∧
     ytick_label name = first +:+ "...").
Proof.
  unfold ytick_label. case_decide as Hlong.
  - assert (String.length (prefix 30 name +:+ "...") = 33) as Hlen.
    { rewrite string_length_app, prefix_length.
      change (String.length "...") with 3. lia. }
    split_and!; [lia | lia |]. intros _. split; [done|].
    destruct (prefix_app 30 name) as [rest Hrest].
    exists (prefix 30 name), rest. split_and!; [|done|done].
    rewrite prefix_length. lia.
  - split_and!; [lia | done | lia].
Qed.

(** ** The attributes and the size of the network graph *)

Lemma nodes_add_node G n attr k :
  dict_get k (nodes (add_node G n attr)) =
  if decide (n = k)
  then Some (update_attrs (default no_attrs (dict_get n (nodes G))) attr)
  else dict_get k (nodes G).
Proof. unfold add_node. cbn [nodes]. apply dict_get_set. Qed.

Lemma update_no_attrs attrs : update_attrs attrs no_attrs = attrs.
Proof. by destruct attrs. Qed.

Lemma nodes_ensure G n k :
  dict_get k (nodes (add_node G n no_attrs)) =
  match dict_get k (nodes G) with
  | Some attrs => Some attrs
  | None => if decide (n = k) then Some no_attrs else None
  end.
Proof.
  rewrite nodes_add_node. destruct (decide (n = k)) as [->|Hne].
  - rewrite update_no_attrs. by destruct (dict_get k (nodes G)).
  - by destruct (dict_get k (nodes G)).
Qed.

Lemma commit_count_add_commit G branch commit k :
  attr_of attr_commit_count (add_commit branch G commit) k
  = attr_of attr_commit_count G k.
Proof.
  unfold attr_of, add_commit, add_edge. cbn [nodes].
  rewrite !nodes_ensure, nodes_add_node.
  destruct (decide (commit_id commit = k)) as [->|Hne].
  - by destruct (dict_get k (nodes G)).
  - destruct (dict_get k (nodes G)); [done|]. by repeat case_decide.
Qed.

Lemma commit_count_add_branch G branch commits k :
  attr_of attr_commit_count (add_branch G (branch, commits)) k =
  if decide (branch = k) then Some (length commits)
  else attr_of attr_commit_count G k.
Proof.
  unfold add_branch. generalize (take 10 commits). intros l.
  induction l as [|c l IH] using rev_ind.
  - cbn [foldl]. unfold attr_of. rewrite nodes_add_node. by case_decide.
  - by rewrite foldl_snoc, commit_count_add_commit.
Qed.

(** X9: the node of a branch carries as [commit_count] the number of all
    the commits of the branch in the collection, also of those beyond the
    ten that get a node. *)
Theorem branch_node_commit_count (all_commits : Collection) branch commits :
  NoDup (dict_keys all_commits) →
  dict_get branch all_commits = Some commits →
  ∃ attrs,
    dict_get branch (nodes (network_graph all_commits)) = Some attrs ∧
    attr_commit_count attrs = Some (length commits).
Proof.
  intros Hnd Hget%dict_get_Some_elem.
  assert (attr_of attr_commit_count (network_graph all_commits) branch
          = Some (length commits)) as Hattr.
  { revert Hnd Hget. unfold dict_keys.
    induction all_commits as [|[b cs] items IH] using rev_ind.
    - by intros _ ?%elem_of_nil.
    - rewrite fmap_app, network_graph_snoc, commit_count_add_branch.
      intros (Hitems & Hdisj & _)%NoDup_app
             [Hin|[= -> ->]%list_elem_of_singleton]%elem_of_app.
      + rewrite decide_False; [by apply IH|]. intros ->.
        apply (Hdisj branch); [|apply list_elem_of_here].
        apply list_elem_of_fmap. by exists (branch, commits).
      + by rewrite decide_True. }
  unfold attr_of in Hattr.
  destruct (dict_get branch (nodes (network_graph all_commits))) as [attrs|];
    [|done].
  by exists attrs.
Qed.

Lemma branch_node_commit_count_witness :
  ∃ attrs,
    dict_get "main" (nodes (network_graph Sample.collection)) = Some attrs ∧
    attr_commit_count attrs = Some (length [Sample.c1; Sample.c2]).
Proof.
  apply (branch_node_commit_count Sample.collection "main").
  - vm_compute. repeat constructor; set_solver.
  - vm_compute. reflexivity.
Defined.

Lemma elem_of_keys_add_node G n attr k :
  k ∈ dict_keys (nodes (add_node G n attr)) ↔ k = n ∨ k ∈ dict_keys (nodes G).
Proof.
  unfold add_node. cbn [nodes]. rewrite dict_keys_set. case_decide.
  - split; [auto | intros [->|?]; done].
  - rewrite elem_of_app, list_elem_of_singleton. tauto.
Qed.

Lemma elem_of_keys_add_commit G branch commit k :
  k ∈ dict_keys (nodes (add_commit branch G commit)) ↔
  k = commit_id commit ∨ k = branch ∨ k ∈ dict_keys (nodes G).
Proof.
  unfold add_commit, add_edge. cbn [nodes].
  rewrite !elem_of_keys_add_node. tauto.
Qed.

Lemma elem_of_keys_add_branch G branch commits k :
  k ∈ dict_keys (nodes (add_branch G (branch, commits))) ↔
  k = branch ∨ k ∈ commit_id <$> take 10 commits ∨ k ∈ dict_keys (nodes G).
Proof.
  unfold add_branch. generalize (take 10 commits). intros l.
  induction l as [|c l IH] using rev_ind.
  - cbn [foldl fmap list_fmap]. rewrite elem_of_keys_add_node.
    split; [tauto | intros [?|[[]%elem_of_nil|?]]; auto].
  - rewrite foldl_snoc, elem_of_keys_add_commit, IH, fmap_app.
    cbn [fmap list_fmap]. rewrite elem_of_app, list_elem_of_singleton. tauto.
Qed.

Lemma elem_of_network_nodes (all_commits : Collection) k :
  k ∈ dict_keys (nodes (network_graph all_commits)) ↔
  k ∈ dict_keys all_commits ∨ k ∈ capped_ids all_commits.
Proof.
  induction all_commits as [|[b cs] items IH] using rev_ind.
  - split; [by intros ?%elem_of_nil | by intros [?%elem_of_nil|?%elem_of_nil]].
  - rewrite network_graph_snoc, elem_of_keys_add_branch, IH, capped_ids_snoc.
    unfold dict_keys. rewrite fmap_app. cbn [fmap list_fmap fst].
    rewrite !elem_of_app, list_elem_of_singleton. tauto.
Qed.

Lemma capped_pairs_length (all_commits : Collection) :
  length (capped_pairs all_commits) ≤ 10 * length all_commits.
Proof.
  unfold capped_pairs. induction all_commits as [|[b cs] items IH]; [done|].
  cbn [mbind list_bind snd length]. rewrite length_app, length_fmap, length_take.
  lia.
Qed.

(** X10: the nodes of the network graph are the branches of the collection
    and the ids of the first ten commits of each, every key once; so the
    graph has at most eleven nodes and at most ten edges per branch. *)
Theorem network_graph_size (all_commits : Collection) :
  (∀ k, k ∈ dict_keys (nodes (network_graph all_commits)) ↔
        k ∈ dict_keys all_commits ∨ k ∈ capped_ids all_commits) ∧
  NoDup (dict_keys (nodes (network_graph all_commits))) ∧
  length (nodes (network_graph all_commits)) ≤ 11 * length all_commits ∧
  length (edges (network_graph all_commits)) ≤ 10 * length all_commits.
Proof.
  pose proof (network_graph_NoDup all_commits) as HG. split_and!.
  - apply elem_of_network_nodes.
  - exact HG.
  - rewrite <- (length_fmap fst (nodes _)).
    transitivity (length (dict_keys all_commits ++ capped_ids all_commits)).
    + apply submseteq_length, NoDup_submseteq; [exact HG|].
      intros k Hk. apply elem_of_app. by apply elem_of_network_nodes.
    + pose proof (capped_ids_length all_commits).
      unfold dict_keys. rewrite length_app, length_fmap. lia.
  - etransitivity; [|apply capped_pairs_length].
    apply submseteq_length, NoDup_submseteq; [apply network_edges_NoDup|].
    intros e (b & cs & c & Hin & Hc & ->)%elem_of_network_edges.
    unfold capped_pairs. apply list_elem_of_bind. exists (b, cs).
    split; [|done]. apply list_elem_of_fmap. by exists c.
Qed.

Lemma described_mono G (P Q : Commit → Prop) :
  (∀ c, P c → Q c) → commits_described G P → commits_described G Q.
Proof.
  intros HPQ HG k attrs Hget Htype.
  destruct (HG k attrs Hget Htype) as (c & Hc & Hrest). exists c. auto.
Qed.

Lemma described_ensure G P n :
  commits_described G P → commits_described (add_node G n no_attrs) P.
Proof.
  intros HG k attrs. rewrite nodes_ensure.
  destruct (dict_get k (nodes G)) as [old|] eqn:Hold.
  - intros [= <-]. by apply HG.
  - case_decide; [|done]. by intros [= <-].
Qed.

Lemma described_add_commit G P branch commit :
  commits_described G P →
  commits_described (add_commit branch G commit) (λ c, P c ∨ c = commit).
Proof.
  intros HG. unfold add_commit, add_edge.
  set (G1 := add_node G (commit_id commit) _).
  assert (commits_described G1 (λ c, P c ∨ c = commit)) as H1.
  { intros k attrs. unfold G1. rewrite nodes_add_node.
    destruct (decide (commit_id commit = k)) as [<-|Hne].
    - intros [= <-] _. exists commit. by split_and!; [right | |].
    - intros Hget Htype. destruct (HG k attrs Hget Htype) as (c & ? & ? & ?).
      exists c. auto. }
  intros k attrs Hget. apply (described_ensure _ _ (commit_id commit)
                                (described_ensure _ _ branch H1) k attrs).
  exact Hget.
Qed.

Lemma described_add_branch G P branch commits :
  commits_described G P →
  commits_described (add_branch G (branch, commits))
                    (λ c, P c ∨ c ∈ take 10 commits).
Proof.
  intros HG. unfold add_branch. generalize (take 10 commits). intros l.
  induction l as [|c l IH] using rev_ind.
  - cbn [foldl]. intros k attrs. rewrite nodes_add_node.
    destruct (decide (branch = k)) as [<-|Hne].
    + by intros [= <-].
    + intros Hget Htype. destruct (HG k attrs Hget Htype) as (c & ? & ? & ?).
      exists c. auto.
  - rewrite foldl_snoc. eapply described_mono;
      [|apply described_add_commit, IH].
    cbn. intros x [[?|?]| ->]; [by left | right | right].
    + apply elem_of_app. by left.
    + apply elem_of_app. right. apply list_elem_of_here.
Qed.

Lemma network_graph_described (all_commits : Collection) :
  commits_described (network_graph all_commits)
    (λ c, ∃ branch commits, (branch, commits) ∈ all_commits ∧ c ∈ take 10 commits).
Proof.
  induction all_commits as [|[b cs] items IH] using rev_ind.
  - by intros k attrs.
  - rewrite network_graph_snoc. eapply described_mono;
      [|apply described_add_branch, IH].
    cbn. intros c [(b' & cs' & Hin & Hc)|Hc].
    + exists b', cs'. split; [|done]. apply elem_of_app. by left.
    + exists b, cs. split; [|done]. apply elem_of_app. right.
      apply list_elem_of_here.
Qed.

(** X11: a node that is drawn as a commit carries the author, the authored
    date and the message, cut down to at most 50 characters, of one of the
    first ten commits of some branch, a commit with that very id. *)
Theorem commit_node_attributes (all_commits : Collection) n :
  n ∈ commit_nodes (network_graph all_commits) →
  ∃ attrs branch commits c,
    dict_get n (nodes (network_graph all_commits)) = Some attrs ∧
    (branch, commits) ∈ all_commits ∧ c ∈ take 10 commits ∧
    commit_id c = n ∧ describes c attrs ∧
    (∀ text, attr_message attrs = Some text → String.length text ≤ 50).
Proof.
  pose proof (network_graph_NoDup all_commits) as HG.
  unfold commit_nodes, nodes_of_type.
  intros ([k attrs] & -> & [Htype Hin]%list_elem_of_filter)%list_elem_of_fmap.
  cbn [fst snd] in *. apply (elem_dict_get _ _ _ HG) in Hin.
  destruct (network_graph_described all_commits k attrs Hin Htype)
    as (c & (b & cs & Hitem & Hc) & Hid & Hdesc).
  exists attrs, b, cs, c. split_and!; try done.
  destruct Hdesc as (_ & _ & Hmsg). intros text. rewrite Hmsg. intros [= <-].
  rewrite prefix_length. lia.
Qed.

Lemma commit_node_attributes_witness :
  ∃ attrs branch commits c,
    dict_get "3c4e9cd7" (nodes (network_graph Sample.collection)) = Some attrs ∧
    (branch, commits) ∈ Sample.collection ∧ c ∈ take 10 commits ∧
    commit_id c = "3c4e9cd7" ∧ describes c attrs ∧
    (∀ text, attr_message attrs = Some text → String.length text ≤ 50).
Proof.
  apply (commit_node_attributes Sample.collection "3c4e9cd7").
  vm_compute. set_solver.
Defined.

Lemma key_branch_type (all_commits : Collection) k :
  k ∈ dict_keys all_commits → k ∉ capped_ids all_commits →
  node_type_of (network_graph all_commits) k = Some branch_kind.
Proof.
  unfold dict_keys.
  induction all_commits as [|[b cs] items IH] using rev_ind.
  - by intros ?%elem_of_nil.
  - rewrite network_graph_snoc, node_type_add_branch, capped_ids_snoc, fmap_app.
    rewrite elem_of_app, not_elem_of_app. cbn [fmap list_fmap fst].
    intros Hkey [Hitems Hcs]. rewrite decide_False by done.
    case_decide; [done|]. apply IH; [|done].
    destruct Hkey as [?|?%list_elem_of_singleton]; [done | congruence].
Qed.

(** X12: when no branch of the collection bears the name of the id of a
    commit within the cap, the nodes that are drawn as branches are exactly
    the branches of the collection, each once. *)
Theorem branch_nodes_are_the_branches (all_commits : Collection) :
  NoDup (dict_keys all_commits) →
  (∀ n, n ∈ capped_ids all_commits → n ∉ dict_keys all_commits) →
  branch_nodes (network_graph all_commits) ≡ₚ dict_keys all_commits.
Proof.
  intros Hnd Hclash.
  pose proof (network_graph_NoDup all_commits) as HG.
  apply NoDup_Permutation; [by apply nodes_of_type_NoDup | done |].
  intros k. unfold branch_nodes. rewrite (elem_of_nodes_of_type _ _ _ HG). split.
  - apply branch_type_key.
  - intros Hk. apply key_branch_type; [done|]. intros Hid. by apply (Hclash k).
Qed.

Lemma branch_nodes_are_the_branches_witness :
  branch_nodes (network_graph Sample.collection) ≡ₚ dict_keys Sample.collection.
Proof.
  apply (branch_nodes_are_the_branches Sample.collection).
  - vm_compute. repeat constructor; set_solver.
  - intros n Hn Hkey. vm_compute in Hn, Hkey. set_solver.
Defined.

(** ** The runs of the program, in full *)





Lemma collection_lists_nonempty w repo_path since_date all_commits :
  (get_all_commits_from_date w repo_path since_date).2 = Returned all_commits →
  Forall (λ item, item.2 ≠ []) all_commits.
Proof.
  intros Hrun. apply Forall_forall. intros [b cs] Hin. cbn [snd].
  pose proof (collection_NoDup _ _ _ _ Hrun) as Hnd.
  apply (elem_dict_get _ _ _ Hnd) in Hin.
  destruct (get_all_commits_returned _ _ _ _ Hrun) as (repo & Hopen & _).
  rewrite (collection_get _ _ _ _ _ b Hrun Hopen) in Hin.
  case_decide as Hq; [|done]. injection Hin as <-. apply Hq.
Qed.

Lemma stats_items_keys (items : Collection) :
  Forall (λ item, item.2 ≠ []) items →
  dict_keys (omap stats_item items) = dict_keys items.
Proof.
  unfold dict_keys. induction 1 as [|[b cs] items Hne _ IH]; [done|].
  cbn [snd] in Hne. destruct cs as [|c cs]; [done|].
  cbn [omap list_omap stats_item snd fst]. rewrite !fmap_cons. by rewrite IH.
Qed.

(** X15: for the collection that the Collector returns, the three outputs
    name the same branches in the same order: the rows of the timeline, the
    entries of [branch_stats] and the keys of the collection; so
    [total_branches] is the number of entries of [branch_stats], and there
    is one axis label per row. *)
Theorem outputs_agree_on_branches w repo_path since_date all_commits :
  (get_all_commits_from_date w repo_path since_date).2 = Returned all_commits →
  row_label <$> timeline_rows (timeline_figure all_commits) = dict_keys all_commits ∧
  dict_keys (branch_stats (summary_of all_commits)) = dict_keys all_commits ∧
  total_branches (summary_of all_commits)
    = length (branch_stats (summary_of all_commits)) ∧
  length (timeline_yticklabels (timeline_figure all_commits))
    = length (timeline_rows (timeline_figure all_commits)).
Proof.
  intros Hrun.
  pose proof (collection_NoDup _ _ _ _ Hrun) as Hnd.
  pose proof (collection_lists_nonempty _ _ _ _ Hrun) as Hne.
  assert (dict_keys (branch_stats (summary_of all_commits))
          = dict_keys all_commits) as Hkeys.
  { rewrite (branch_stats_items _ Hnd). by apply stats_items_keys. }
  split_and!.
  - apply timeline_row_labels.
  - exact Hkeys.
  - rewrite <- (length_fmap fst (branch_stats _)).
    fold (dict_keys (branch_stats (summary_of all_commits))).
    rewrite Hkeys. unfold dict_keys. by rewrite length_fmap.
  - cbn [timeline_figure timeline_yticklabels timeline_rows].
    unfold dict_keys. by rewrite !length_fmap, length_imap.
Qed.

Lemma outputs_agree_on_branches_witness :
  row_label <$> timeline_rows (timeline_figure Sample.collection)
    = dict_keys Sample.collection ∧
  dict_keys (branch_stats (summary_of Sample.collection))
    = dict_keys Sample.collection ∧
  total_branches (summary_of Sample.collection)
    = length (branch_stats (summary_of Sample.collection)) ∧
  length (timeline_yticklabels (timeline_figure Sample.collection))
    = length (timeline_rows (timeline_figure Sample.collection)).
Proof.
  apply (outputs_agree_on_branches Sample.world "." Sample.since_date).
  vm_compute. reflexivity.
Defined.

(** ** The summary against the timeline *)

Lemma lookup_dict_get {V} (d : dict V) i k v :
  NoDup (dict_keys d) → d !! i = Some (k, v) → dict_get k d = Some v.
Proof.
  intros Hnd Hi. apply elem_dict_get; [done|].
  apply list_elem_of_lookup. by exists i.
Qed.

(** X16: for a branch with commits, the date at which the timeline puts the
    annotation is never before the [latest_commit] of the summary, which is
    the date of the first commit of the list; the two are the same date
    when the list is ordered newest first. *)
Theorem annotation_date_and_latest_commit (all_commits : Collection) i branch
    commits :
  NoDup (dict_keys all_commits) →
  all_commits !! i = Some (branch, commits) → commits ≠ [] →
  ∃ row stats text newest latest,
    timeline_rows (timeline_figure all_commits) !! i = Some row ∧
    dict_get branch (branch_stats (summary_of all_commits)) = Some stats ∧
    row_annotation row = Some (text, newest) ∧
    latest_commit stats = Some latest ∧
    (latest ≤ newest)%Z ∧
    (newest_first commits → latest = newest).
Proof.
  intros Hnd Hi Hne.
  pose proof (lookup_dict_get _ _ _ _ Hnd Hi) as Hget.
  destruct commits as [|c cs]; [done|].
  exists (timeline_row i (branch, c :: cs)), (stats_entry (c :: cs)).
  exists (pretty (length (c :: cs)) +:+ " commits").
  exists (maximum (authored_date c) (authored_date <$> cs)), (authored_date c).
  pose proof (maximum_upper (authored_date c) (authored_date <$> cs)) as [Hd _].
  split_and!.
  - cbn [timeline_figure timeline_rows]. by rewrite list_lookup_imap, Hi.
  - by apply branch_stats_get.
  - reflexivity.
  - reflexivity.
  - exact Hd.
  - intros Hsorted.
    pose proof (maximum_elem (authored_date c) (authored_date <$> cs)) as Hin.
    change (authored_date c :: (authored_date <$> cs))
      with (authored_date <$> c :: cs) in Hin.
    apply list_elem_of_fmap in Hin as (c' & Heq & Hc').
    assert (last (c :: cs) ≠ None) as Hlast by (by intros ?%last_None).
    destruct (last (c :: cs)) as [oldest|] eqn:Ho; [|done].
    pose proof (newest_first_bounds (c :: cs) c oldest c' Hsorted eq_refl Ho Hc').
    lia.
Qed.

Lemma annotation_date_and_latest_commit_witness :
  ∃ row stats text newest latest,
    timeline_rows (timeline_figure Sample.collection) !! 0 = Some row ∧
    dict_get "main" (branch_stats (summary_of Sample.collection)) = Some stats ∧
    row_annotation row = Some (text, newest) ∧
    latest_commit stats = Some latest ∧
    (latest ≤ newest)%Z ∧
    (newest_first [Sample.c1; Sample.c2] → latest = newest).
Proof.
  apply (annotation_date_and_latest_commit Sample.collection 0 "main").
  - vm_compute. repeat constructor; set_solver.
  - reflexivity.
  - discriminate.
Defined.

Lemma remove_dups_length_le (names : list string) :
  length (remove_dups names) ≤ length names.
Proof.
  induction names as [|n names IH]; [done|]. cbn [remove_dups length].
  case_decide; cbn [length]; lia.
Qed.

Lemma collection_commit_total (items : Collection) :
  Forall (λ item, item.2 ≠ []) items →
  length items ≤ sum_list (length <$> dict_values items).
Proof.
  unfold dict_values. induction 1 as [|[b cs] items Hne _ IH]; [done|].
  cbn [snd] in Hne. rewrite !fmap_cons. cbn [snd length].
  change (sum_list (?x :: ?l)) with (x + sum_list l).
  destruct cs; [done|]. cbn [length]. lia.
Qed.

(** X17: in the summary of the collection that the Collector returns, every
    entry of [branch_stats] counts at least one commit and at least one
    author, and no more authors than commits; and there are at least as many
    commits in total as there are branches. *)
Theorem summary_counts_bounds w repo_path since_date all_commits :
  (get_all_commits_from_date w repo_path since_date).2 = Returned all_commits →
  (∀ branch stats,
     dict_get branch (branch_stats (summary_of all_commits)) = Some stats →
     1 ≤ unique_authors stats ∧ unique_authors stats ≤ commit_count stats) ∧
  total_branches (summary_of all_commits) ≤ total_commits (summary_of all_commits).
Proof.
  intros Hrun.
  pose proof (collection_NoDup _ _ _ _ Hrun) as Hnd.
  pose proof (collection_lists_nonempty _ _ _ _ Hrun) as Hne. split.
  - intros branch stats Hget. rewrite (branch_stats_items _ Hnd) in Hget.
    apply dict_get_Some_elem, list_elem_of_omap in Hget as ([b cs] & _ & Hitem).
    unfold stats_item in Hitem. cbn [fst snd] in Hitem.
    destruct cs as [|c cs]; [done|]. injection Hitem as _ <-.
    cbn [stats_entry unique_authors commit_count].
    rewrite (author_list_distinct (c :: cs)).
    pose proof (remove_dups_length_le (author_name <$> c :: cs)) as Hle.
    rewrite length_fmap in Hle. split; [|exact Hle].
    destruct (remove_dups (author_name <$> c :: cs)) as [|a l] eqn:Hdups;
      [|cbn; lia].
    assert (author_name c ∈ remove_dups (author_name <$> c :: cs)) as Hin.
    { apply elem_of_remove_dups. rewrite fmap_cons. apply list_elem_of_here. }
    rewrite Hdups in Hin. by apply elem_of_nil in Hin.
  - cbn [summary_of total_branches total_commits].
    by apply collection_commit_total.
Qed.

Lemma summary_counts_bounds_witness :
  (∀ branch stats,
     dict_get branch (branch_stats (summary_of Sample.collection)) = Some stats →
     1 ≤ unique_authors stats ∧ unique_authors stats ≤ commit_count stats) ∧
  total_branches (summary_of Sample.collection)
    ≤ total_commits (summary_of Sample.collection).
Proof.
  apply (summary_counts_bounds Sample.world "." Sample.since_date).
  vm_compute. reflexivity.
Defined.
